(** * berrrr: journey aggregation and refresh engine (src/main.go)

    A shallow embedding of the journey builder ([fetchJourneys]), the
    occupancy classifier ([parseOccupancy]) and the refresh callback
    ([App.refresh]) of src/main.go, with the properties of spec.md stated and
    proved (or refuted) over it.

    Conventions.
    - A Go [string] is a byte sequence: Rocq's [string].
    - A Go [int] and a [time.Duration] are 64-bit integers, carried in [Z]
      with the wrap-around of [+=] written out ([dur_add]).
    - A [time.Time] is an instant (nanoseconds since 0001-01-01T00:00:00Z,
      Go's zero time) together with the offset of its location.
    - A Go [map[string]T] is a [gmap string T]; the nil map is [∅].
    - A nil slice and an empty slice are both [[]] (the code only ever takes
      [len] and ranges over them).
    - Functions of Go's standard library whose full behaviour is outside this
      repository ([strings.ToLower], [time.Parse], [Time.Format],
      [sort.Slice]) are the fields of the class [GoLib]; every theorem holds
      for every implementation of that class.  [refLib] is one implementation,
      used to evaluate the code on concrete inputs. *)

From Stdlib Require Import ZArith Ascii String.
From stdpp Require Import gmap strings list sorting.

Local Open Scope string_scope.
Local Open Scope Z_scope.

#[local] Set Warnings "-clear-no-such-hyp".

(* ===================================================================== *)
(** ** Go strings *)
(* ===================================================================== *)

(** [strings.HasPrefix (s, p)]. *)
Fixpoint strings_HasPrefix (s p : string) : bool :=
  match p, s with
  | EmptyString, _ => true
  | String c p', String d s' => if decide (c = d) then strings_HasPrefix s' p' else false
  | String _ _, EmptyString => false
  end.

(** [strings.Contains (s, substr)]: some suffix of [s] starts with [substr]. *)
Fixpoint strings_Contains (s substr : string) : bool :=
  strings_HasPrefix s substr ||
  match s with
  | EmptyString => false
  | String _ s' => strings_Contains s' substr
  end.

(** [strings.ReplaceAll (s, old, new)] for a one-byte [old] (the only use in
    the source is [ReplaceAll (isoString, "Z", "+00:00")]). *)
Fixpoint strings_ReplaceAll (s : string) (old : ascii) (new : string) : string :=
  match s with
  | EmptyString => EmptyString
  | String c s' =>
      if decide (c = old) then new +:+ strings_ReplaceAll s' old new
      else String c (strings_ReplaceAll s' old new)
  end.

(* ===================================================================== *)
(** ** time.Duration and time.Time *)
(* ===================================================================== *)

Definition maxDuration : Z := 2 ^ 63 - 1.
Definition minDuration : Z := - 2 ^ 63.

(** Two's-complement reduction of an integer to 64 bits. *)
Definition wrap64 (z : Z) : Z := (z + 2 ^ 63) `mod` 2 ^ 64 - 2 ^ 63.

(** [a + b] on [time.Duration] (an [int64] count of nanoseconds). *)
Definition dur_add (a b : Z) : Z := wrap64 (a + b).

Module Time.

(** [ns]: nanoseconds since the zero time; [offset]: seconds east of UTC of
    the location the value carries (what [Format] prints it in). *)
Record t := mk { ns : Z; offset : Z }.

(** The zero value [time.Time{}]. *)
Definition zero : t := mk 0 0.

Definition IsZero (x : t) : bool := bool_decide (ns x = 0).
Definition Equal (x y : t) : bool := bool_decide (ns x = ns y).
Definition Before (x y : t) : bool := bool_decide (ns x < ns y).
Definition After (x y : t) : bool := bool_decide (ns y < ns x).

(** [x.Sub(y)]: the difference as a Duration, saturated to the int64 range
    when it does not fit. *)
Definition Sub (x y : t) : Z :=
  let d := ns x - ns y in
  if bool_decide (minDuration ≤ d ≤ maxDuration) then d
  else if Before x y then minDuration else maxDuration.

(** [x] is not later than [y]. *)
Definition le (x y : t) : Prop := ns x ≤ ns y.

End Time.

(* ===================================================================== *)
(** ** The standard-library functions the code calls *)
(* ===================================================================== *)

(** The order [sort.Slice] sorts by must be a strict weak order; for the
    sorted output only these two consequences are used. *)
Definition less_asym {A} (less : A → A → bool) : Prop :=
  ∀ a b, less a b = true → less b a = false.
Definition less_negtrans {A} (less : A → A → bool) : Prop :=
  ∀ a b c, less a c = true → less a b = true ∨ less b c = true.

(** No element is [less] than one that stands before it. *)
Definition sorted_by {A} (less : A → A → bool) (l : list A) : Prop :=
  StronglySorted (λ a b, less b a = false) l.

Class GoLib := {
  (** [strings.ToLower]. *)
  strings_ToLower : string → string;
  (** [time.Parse (time.RFC3339, s)]; [None] is the error result. *)
  time_Parse_RFC3339 : string → option Time.t;
  (** [t.Format (time.RFC3339)]. *)
  time_Format_RFC3339 : Time.t → string;
  (** [sort.Slice]: rearranges the slice so that it is sorted by [less]; the
      order of elements that compare equal is not specified. *)
  sort_Slice : ∀ {A : Type}, (A → A → bool) → list A → list A;
  sort_Slice_perm : ∀ A (less : A → A → bool) l, sort_Slice less l ≡ₚ l;
  sort_Slice_sorted : ∀ A (less : A → A → bool),
    less_asym less → less_negtrans less → ∀ l, sorted_by less (sort_Slice less l);
}.

(* ===================================================================== *)
(** ** Data model (src/main.go, lines 46-131) *)
(* ===================================================================== *)

Module Leg.
Record t := mk {
  Line : string;
  Type_ : string;
  Product : string;
  From : string;
  To : string;
  Departure : Time.t;
  Arrival : Time.t;
  WaitBefore : Z;
  DepDelay : Z;
  ArrDelay : Z;
  Occupancy : string;
  ServiceStatus : list string;
  DepPlatform : string;
  ArrPlatform : string;
  Cycle : Z;
  LineColor : string;
  TripID : string;
}.
End Leg.

Module Journey.
Record t := mk {
  LeaveAt : Time.t;
  ArriveAt : Time.t;
  Duration : Z;
  TotalWait : Z;
  Legs : list Leg.t;
  IsNew : bool;
}.

(** [journeys[i].IsNew = b]. *)
Definition set_IsNew (b : bool) (j : t) : t :=
  mk (LeaveAt j) (ArriveAt j) (Duration j) (TotalWait j) (Legs j) b.
End Journey.

Module DelayHistory.
Record t := mk {
  Line : string;
  Delays : list Z;
  Updated : Time.t;
}.
End DelayHistory.

Module APILocation.
Record t := mk { ID : string; Name : string; Type_ : string }.
End APILocation.

Module APILine.
Record t := mk {
  Name : string;
  Product : string;
  ColorFG : string;
  ColorBG : string;
}.
End APILine.

Module APIRemark.
Record t := mk { Type_ : string; Code : string; Text : string }.
End APIRemark.

(** Pointer fields ([*APILocation], [*APILine], [*int], [*struct]) are
    options: [None] is the nil pointer. *)
Module APILeg.
Record t := mk {
  Origin : option APILocation.t;
  Destination : option APILocation.t;
  Departure : string;
  Arrival : string;
  Line : option APILine.t;
  DepartureDelay : option Z;
  ArrivalDelay : option Z;
  DeparturePlatform : string;
  PlannedDeparturePlatform : string;
  ArrivalPlatform : string;
  PlannedArrivalPlatform : string;
  Remarks : list APIRemark.t;
  TripId : string;
  CycleMin : option Z;
}.
End APILeg.

Module APIJourney.
Record t := mk { Legs : list APILeg.t }.
End APIJourney.

Module APIJourneysResponse.
Record t := mk { Journeys : list APIJourney.t }.
End APIJourneysResponse.

(** The journey data source: the outcome of the HTTP GET, [io.ReadAll] and
    [json.Unmarshal] of [fetchJourneys] for an origin and a destination;
    [None] when any of the three returns an error. *)
Definition Network : Type := string → string → option APIJourneysResponse.t.

(* ===================================================================== *)
(** ** The journey builder (src/main.go, lines 201-207 and 350-544) *)
(* ===================================================================== *)

Section Builder.
Context {lib : GoLib}.

(** [parseTime]: [None] is the error result. *)
Definition parseTime (isoString : string) : option Time.t :=
  if decide (isoString = "") then None
  else time_Parse_RFC3339 (strings_ReplaceAll isoString "Z"%char "+00:00").

(** [parseOccupancy]: the first remark about occupancy whose text names a
    level decides. *)
Fixpoint parseOccupancy (remarks : list APIRemark.t) : string :=
  match remarks with
  | [] => ""
  | r :: rest =>
      let code := strings_ToLower (APIRemark.Code r) in
      let text := strings_ToLower (APIRemark.Text r) in
      if strings_Contains code "occup" || strings_Contains text "occupancy" then
        if strings_Contains text "low" then "low"
        else if strings_Contains text "medium" || strings_Contains text "moderate" then "medium"
        else if strings_Contains text "high" then "high"
        else parseOccupancy rest
      else parseOccupancy rest
  end.

(** [parseServiceStatus]. *)
Fixpoint parseServiceStatus (remarks : list APIRemark.t) : list string :=
  match remarks with
  | [] => []
  | r :: rest =>
      if (bool_decide (APIRemark.Type_ r = "warning") || bool_decide (APIRemark.Type_ r = "status"))
         && negb (bool_decide (APIRemark.Text r = ""))
      then APIRemark.Text r :: parseServiceStatus rest
      else parseServiceStatus rest
  end.

(** The variables of the loop over one raw journey's legs (lines 411-413). *)
Record legState := mkLegState {
  legs : list Leg.t;
  totalWait : Z;
  prevArrival : Time.t;
}.

(** The wait a leg departing at [dep] is given when the previous arrival is
    [prev] (lines 432-436). *)
Definition waitFor (prev dep : Time.t) : Z :=
  if negb (Time.IsZero prev) && Time.After dep prev then Time.Sub dep prev else 0.

(** The [Leg] built from a raw leg with a line (lines 438-492). *)
Definition mkLeg (al : APILeg.t) (line : APILine.t) (dep arr : Time.t) (wait : Z) : Leg.t :=
  let originName := from_option APILocation.Name "" (APILeg.Origin al) in
  let destName := from_option APILocation.Name "" (APILeg.Destination al) in
  let depDelay := default 0 (APILeg.DepartureDelay al) in
  let arrDelay := default 0 (APILeg.ArrivalDelay al) in
  let depPlatform :=
    if decide (APILeg.DeparturePlatform al = "") then APILeg.PlannedDeparturePlatform al
    else APILeg.DeparturePlatform al in
  let arrPlatform :=
    if decide (APILeg.ArrivalPlatform al = "") then APILeg.PlannedArrivalPlatform al
    else APILeg.ArrivalPlatform al in
  let cycle := from_option (λ m, m `quot` 60) 0 (APILeg.CycleMin al) in
  {| Leg.Line := APILine.Name line;
     Leg.Type_ := "";
     Leg.Product := APILine.Product line;
     Leg.From := originName;
     Leg.To := destName;
     Leg.Departure := dep;
     Leg.Arrival := arr;
     Leg.WaitBefore := wait;
     Leg.DepDelay := depDelay;
     Leg.ArrDelay := arrDelay;
     Leg.Occupancy := parseOccupancy (APILeg.Remarks al);
     Leg.ServiceStatus := parseServiceStatus (APILeg.Remarks al);
     Leg.DepPlatform := depPlatform;
     Leg.ArrPlatform := arrPlatform;
     Leg.Cycle := cycle;
     Leg.LineColor := APILine.ColorBG line;
     Leg.TripID := APILeg.TripId al |}.

(** One iteration of the loop over the raw legs (lines 415-496). *)
Definition legStep (st : legState) (al : APILeg.t) : legState :=
  match APILeg.Line al with
  | None =>
      match parseTime (APILeg.Arrival al) with
      | Some arr => mkLegState (legs st) (totalWait st) arr
      | None => st
      end
  | Some line =>
      match parseTime (APILeg.Departure al) with
      | None => st
      | Some dep =>
          match parseTime (APILeg.Arrival al) with
          | None => st
          | Some arr =>
              let wait := waitFor (prevArrival st) dep in
              let totalWait' :=
                if negb (Time.IsZero (prevArrival st)) && Time.After dep (prevArrival st)
                then dur_add (totalWait st) wait else totalWait st in
              mkLegState (legs st ++ [mkLeg al line dep arr wait])%list totalWait' arr
          end
      end
  end.

Definition legLoop (raw : list APILeg.t) : legState :=
  foldl legStep (mkLegState [] 0 Time.zero) raw.

(** The filter test of lines 503-514: [true] when the journey is skipped. *)
Definition filteredOut (filters : gmap string bool) (ls : list Leg.t) : bool :=
  bool_decide (0 < size filters)%nat &&
  existsb (λ leg, bool_decide (filters !! Leg.Product leg = Some false)) ls.

(** The body of the loop over the raw journeys (lines 406-534): [None] when
    the iteration ends in [continue]. *)
Definition buildJourney (filters : gmap string bool) (aj : APIJourney.t) : option Journey.t :=
  match APIJourney.Legs aj with
  | [] => None
  | first :: _ =>
      let st := legLoop (APIJourney.Legs aj) in
      match last (legs st) with
      | None => None
      | Some lastLeg =>
          if filteredOut filters (legs st) then None
          else
            match parseTime (APILeg.Departure first) with
            | None => None
            | Some journeyStart =>
                let lastArr := Leg.Arrival lastLeg in
                if Time.IsZero journeyStart || Time.IsZero lastArr then None
                else Some {| Journey.LeaveAt := journeyStart;
                             Journey.ArriveAt := lastArr;
                             Journey.Duration := Time.Sub lastArr journeyStart;
                             Journey.TotalWait := totalWait st;
                             Journey.Legs := legs st;
                             Journey.IsNew := true |}
            end
      end
  end.

(** The [less] function handed to [sort.Slice] (lines 536-541). *)
Definition journeyLess (a b : Journey.t) : bool :=
  if Time.Equal (Journey.LeaveAt a) (Journey.LeaveAt b)
  then bool_decide (Journey.TotalWait a < Journey.TotalWait b)
  else Time.Before (Journey.LeaveAt a) (Journey.LeaveAt b).

(** Lines 404-543 of [fetchJourneys]: the journeys of a decoded response. *)
Definition buildJourneys (filters : gmap string bool) (resp : APIJourneysResponse.t)
  : list Journey.t :=
  sort_Slice journeyLess (omap (buildJourney filters) (APIJourneysResponse.Journeys resp)).

(** [fetchJourneys]: [None] is the error result [(nil, err)]. *)
Definition fetchJourneys (net : Network) (originID destID : string)
    (filters : gmap string bool) : option (list Journey.t) :=
  match net originID destID with
  | None => None
  | Some apiResp => Some (buildJourneys filters apiResp)
  end.

End Builder.

(* ===================================================================== *)
(** ** Application state and the refresh cycle (lines 26-44, 546-587,
       638-657 and 1217-1279) *)
(* ===================================================================== *)

Module Station.
Record t := mk { ID : string; Name : string; Type_ : string }.
End Station.

Module Config.
Record t := mk {
  Routes : list (Station.t * Station.t);
  LastOrigin : Station.t;
  LastDest : Station.t;
}.
End Config.

(** The fields of [App] that the refresh cycle reads or writes; the widgets
    of the display are left out. *)
Module App.
Record t := mk {
  config : Config.t;
  journeys : list Journey.t;
  prevJourneyIDs : gmap string bool;
  selectedIdx : Z;
  lastUpdate : Time.t;
  isLoading : bool;
  filters : gmap string bool;
  animFrame : Z;
  refreshPulse : bool;
  newHighlight : Z;
  delayHistory : gmap string DelayHistory.t;
}.

(** [a.filters = f]. *)
Definition set_filters (f : gmap string bool) (a : t) : t :=
  mk (config a) (journeys a) (prevJourneyIDs a) (selectedIdx a) (lastUpdate a)
     (isLoading a) f (animFrame a) (refreshPulse a) (newHighlight a) (delayHistory a).
End App.

(** [NewApp]; the configuration is what [loadConfig] read. *)
Definition NewApp (config : Config.t) : App.t :=
  {| App.config := config;
     App.journeys := [];
     App.prevJourneyIDs := ∅;
     App.selectedIdx := 0;
     App.lastUpdate := Time.zero;
     App.isLoading := false;
     App.filters :=
       foldl (λ m p, <[p := true]> m) ∅
             ["suburban"; "subway"; "tram"; "bus"; "ferry"; "regional"; "express"];
     App.animFrame := 0;
     App.refreshPulse := false;
     App.newHighlight := 0;
     App.delayHistory := ∅ |}.

Section Refresh.
Context {lib : GoLib}.

(** [fmt.Sprintf ("%s-%s", j.LeaveAt.Format (time.RFC3339), j.Legs[0].Line)];
    [None] when [j.Legs[0]] is out of range (a run-time panic). *)
Definition journeyID (j : Journey.t) : option string :=
  match Journey.Legs j with
  | [] => None
  | leg :: _ => Some (time_Format_RFC3339 (Journey.LeaveAt j) +:+ "-" +:+ Leg.Line leg)
  end.

(** [m[id]] on a [map[string]bool]: [false] for a missing key. *)
Definition lookupID (m : gmap string bool) (id : string) : bool :=
  default false (m !! id).

(** The loop of lines 1231-1240 from journey [i] on, with the current
    [newIDs] and [hasNew]; [prev] is [a.prevJourneyIDs], which the loop only
    reads.  Result: the journeys with their flags set, [newIDs], [hasNew]. *)
Fixpoint detectLoop (prev : gmap string bool) (journeys : list Journey.t)
    (newIDs : gmap string bool) (hasNew : bool)
  : option (list Journey.t * gmap string bool * bool) :=
  match journeys with
  | [] => Some ([], newIDs, hasNew)
  | j :: rest =>
      match journeyID j with
      | None => None
      | Some id =>
          let isNew := negb (lookupID prev id) in
          match detectLoop prev rest (<[id := true]> newIDs) (hasNew || isNew) with
          | None => None
          | Some (rest', ids, hn) => Some (Journey.set_IsNew isNew j :: rest', ids, hn)
          end
      end
  end.

(** Lines 1229-1240. *)
Definition detectNew (prev : gmap string bool) (journeys : list Journey.t)
  : option (list Journey.t * gmap string bool * bool) :=
  detectLoop prev journeys ∅ false.

(** Lines 1251-1261: one leg's sample; [now] is what [time.Now] returns. *)
Definition recordLeg (now : Time.t) (hist : gmap string DelayHistory.t) (leg : Leg.t)
  : gmap string DelayHistory.t :=
  if bool_decide (0 < Leg.DepDelay leg) then
    let h := default (DelayHistory.mk (Leg.Line leg) [] Time.zero) (hist !! Leg.Line leg) in
    let appended := (DelayHistory.Delays h ++ [Leg.DepDelay leg `quot` 60])%list in
    let delays :=
      if bool_decide (20 < length appended)%nat
      then drop (length appended - 20) appended else appended in
    <[Leg.Line leg := DelayHistory.mk (DelayHistory.Line h) delays now]> hist
  else hist.

(** Lines 1249-1263.  One reading [now] stands for the readings of the
    cycle: the code reads the clock anew at every late leg (line 1260) and
    for [lastUpdate] (line 1268), so nothing is concluded from [now] about
    which reading an [Updated] stamp holds. *)
Definition recordDelays (now : Time.t) (hist : gmap string DelayHistory.t)
    (journeys : list Journey.t) : gmap string DelayHistory.t :=
  foldl (λ h j, foldl (recordLeg now) h (Journey.Legs j)) hist journeys.

(** Lines 1218-1219: what [refresh] does before the fetch. *)
Definition refreshStart (a : App.t) : App.t :=
  App.mk (App.config a) (App.journeys a) (App.prevJourneyIDs a) (App.selectedIdx a)
         (App.lastUpdate a) true (App.filters a) (App.animFrame a) true
         (App.newHighlight a) (App.delayHistory a).

(** Lines 1224-1270: the update queued when the fetch has returned [result];
    [None] when it panics. *)
Definition refreshApply (a : App.t) (result : option (list Journey.t)) (now : Time.t)
  : option App.t :=
  match result with
  | None =>
      Some (App.mk (App.config a) [] (App.prevJourneyIDs a) 0 now false (App.filters a)
                   (App.animFrame a) (App.refreshPulse a) (App.newHighlight a)
                   (App.delayHistory a))
  | Some fetched =>
      match detectNew (App.prevJourneyIDs a) fetched with
      | None => None
      | Some (journeys, newIDs, hasNew) =>
          let newHighlight := if hasNew then 30 else App.newHighlight a in
          let history := recordDelays now (App.delayHistory a) journeys in
          Some (App.mk (App.config a) journeys newIDs 0 now false (App.filters a)
                       (App.animFrame a) (App.refreshPulse a) newHighlight history)
      end
  end.

(** [App.refresh] up to the end of the queued update: the fetch is always
    made with the nil filter mapping (line 1222). *)
Definition refresh (a : App.t) (net : Network) (now : Time.t) : option App.t :=
  let result :=
    fetchJourneys net (Station.ID (Config.LastOrigin (App.config a)))
                  (Station.ID (Config.LastDest (App.config a))) ∅ in
  refreshApply (refreshStart a) result now.

(** A run of refresh cycles from a state: each cycle has its own network
    outcome and clock reading. *)
Fixpoint refreshes (a : App.t) (cycles : list (Network * Time.t)) : option App.t :=
  match cycles with
  | [] => Some a
  | (net, now) :: rest =>
      match refresh a net now with
      | None => None
      | Some a' => refreshes a' rest
      end
  end.

End Refresh.

(* ===================================================================== *)
(** ** Display helpers (lines 150-180 and 231-272) *)
(* ===================================================================== *)

(** The map literal of [getProductColor]. *)
Definition productColors : gmap string string :=
  list_to_map [("suburban", "green"); ("subway", "blue"); ("tram", "red");
               ("bus", "purple"); ("ferry", "teal"); ("regional", "yellow");
               ("express", "yellow")].

(** [getProductColor]. *)
Definition getProductColor (product : string) : string :=
  default "white" (productColors !! product).

(** The map literal of [getProductIcon]. *)
Definition productIcons : gmap string string :=
  list_to_map [("suburban", "[S]"); ("subway", "[U]"); ("tram", "[T]");
               ("bus", "[B]"); ("ferry", "[F]"); ("regional", "[R]");
               ("express", "[I]")].

(** [getProductIcon]. *)
Definition getProductIcon (product : string) : string :=
  default "[ ]" (productIcons !! product).

(** The bounds of an [int], 64 bits wide as the other integers are taken
    to be. *)
Definition maxInt : Z := maxDuration.
Definition minInt : Z := minDuration.

(** [s] written [count] times. *)
Fixpoint repeated (s : string) (count : nat) : string :=
  match count with
  | O => EmptyString
  | S n => s +:+ repeated s n
  end.

(** [strings.Repeat (s, count)]; [None] when it panics: on a negative count,
    and on an output length [len (s) * count] that overflows an [int]. *)
Definition strings_Repeat (s : string) (count : Z) : option string :=
  if bool_decide (count < 0) then None
  else if bool_decide (maxInt < Z.of_nat (String.length s) * count) then None
  else Some (repeated s (Z.to_nat count)).

(** The glyphs of [sparkline], each the UTF-8 encoding (three bytes) of one
    of the runes U+2581 ... U+2588. *)
Definition blocks : list string := ["▁"; "▂"; "▃"; "▄"; "▅"; "▆"; "▇"; "█"].

Section Sparkline.

(** [int (float64 (x) / float64 (y) * 7)]: the floating-point scaling of
    line 259, taken as given. *)
Variable scale7 : Z → Z → Z.

(** Lines 239-247: the least and the greatest value, from [values[0]]. *)
Definition minMax (first : Z) (values : list Z) : Z * Z :=
  foldl (λ '(minVal, maxVal) v,
           (if bool_decide (v < minVal) then v else minVal,
            if bool_decide (maxVal < v) then v else maxVal))
        (first, first) values.

(** Lines 257-264: the glyph for [v]; [None] when [blocks[idx]] is out of
    range (a run-time panic). *)
Definition sparkBlock (minVal maxVal v : Z) : option string :=
  let idx :=
    if bool_decide (minVal < maxVal)
    then scale7 (wrap64 (v - minVal)) (wrap64 (maxVal - minVal)) else 0 in
  let idx := if bool_decide (7 < idx) then 7 else idx in
  if bool_decide (idx < 0) then None else blocks !! Z.to_nat idx.

(** The loop of lines 255-265 from index [i] on; [remaining] is [width - i],
    so that [remaining = 0] is the failure of the test [i < width]. *)
Fixpoint sparkLoop (values : list Z) (step minVal maxVal : Z)
    (remaining : nat) (i : Z) (result : string) : option string :=
  match remaining with
  | O => Some result
  | S remaining' =>
      if bool_decide (i * step < Z.of_nat (length values)) then
        match values !! Z.to_nat (i * step) with
        | None => None
        | Some v =>
            match sparkBlock minVal maxVal v with
            | None => None
            | Some glyph =>
                sparkLoop values step minVal maxVal remaining' (i + 1) (result +:+ glyph)
            end
        end
      else Some result
  end.

(** The loop of lines 267-269: [len (result)] counts bytes.  It runs at most
    [width] times, each time adding three bytes. *)
Fixpoint padLoop (width : Z) (rounds : nat) (result : string) : string :=
  match rounds with
  | O => result
  | S rounds' =>
      if bool_decide (Z.of_nat (String.length result) < width)
      then padLoop width rounds' (result +:+ "▁") else result
  end.

(** [sparkline]; [None] when it panics (a [Repeat] that panics, a division
    by zero, an index out of range). *)
Definition sparkline (values : list Z) (width : Z) : option string :=
  match values with
  | [] => strings_Repeat "▁" width
  | first :: _ =>
      let '(minVal, maxVal) := minMax first values in
      if bool_decide (width = 0) then None
      else
        let step := Z.of_nat (length values) `quot` width in
        let step := if bool_decide (step < 1) then 1 else step in
        match sparkLoop values step minVal maxVal (Z.to_nat width) 0 EmptyString with
        | None => None
        | Some result => Some (padLoop width (Z.to_nat width) result)
        end
  end.

End Sparkline.

(* ===================================================================== *)
(** ** The journey list's occupancy indicator (lines 1113-1131) *)
(* ===================================================================== *)

(** [occPriority[s]]: 0 for a key the map does not hold. *)
Definition occPriority (s : string) : Z :=
  default 0 ((list_to_map [("low", 1); ("medium", 2); ("high", 3)] : gmap string Z) !! s).

(** Lines 1126-1130, for one leg. *)
Definition maxOccStep (maxOcc : string) (leg : Leg.t) : string :=
  if bool_decide (Leg.Occupancy leg ≠ "") then
    if bool_decide (maxOcc = "") || bool_decide (occPriority maxOcc < occPriority (Leg.Occupancy leg))
    then Leg.Occupancy leg else maxOcc
  else maxOcc.

(** [maxOcc] after the loop over the legs of a journey. *)
Definition maxOccupancy (legs : list Leg.t) : string := foldl maxOccStep "" legs.

(* ===================================================================== *)
(** ** Keys, favourites and the animation clock (lines 726-784, 844-943
       and 1281-1338) *)
(* ===================================================================== *)

(** Single-field updates of [App.t]. *)
Module Upd.
Definition config (c : Config.t) (a : App.t) : App.t :=
  App.mk c (App.journeys a) (App.prevJourneyIDs a) (App.selectedIdx a) (App.lastUpdate a)
         (App.isLoading a) (App.filters a) (App.animFrame a) (App.refreshPulse a)
         (App.newHighlight a) (App.delayHistory a).
Definition journeys (js : list Journey.t) (a : App.t) : App.t :=
  App.mk (App.config a) js (App.prevJourneyIDs a) (App.selectedIdx a) (App.lastUpdate a)
         (App.isLoading a) (App.filters a) (App.animFrame a) (App.refreshPulse a)
         (App.newHighlight a) (App.delayHistory a).
Definition selectedIdx (i : Z) (a : App.t) : App.t :=
  App.mk (App.config a) (App.journeys a) (App.prevJourneyIDs a) i (App.lastUpdate a)
         (App.isLoading a) (App.filters a) (App.animFrame a) (App.refreshPulse a)
         (App.newHighlight a) (App.delayHistory a).
Definition animFrame (n : Z) (a : App.t) : App.t :=
  App.mk (App.config a) (App.journeys a) (App.prevJourneyIDs a) (App.selectedIdx a)
         (App.lastUpdate a) (App.isLoading a) (App.filters a) n (App.refreshPulse a)
         (App.newHighlight a) (App.delayHistory a).
Definition newHighlight (n : Z) (a : App.t) : App.t :=
  App.mk (App.config a) (App.journeys a) (App.prevJourneyIDs a) (App.selectedIdx a)
         (App.lastUpdate a) (App.isLoading a) (App.filters a) (App.animFrame a)
         (App.refreshPulse a) n (App.delayHistory a).
End Upd.

(** [App] with the fields the key handlers and the animation clock use
    besides those of [App.t]. *)
Module UI.
Record t := mk {
  app : App.t;
  routeAnimFrame : Z;
  statusMsg : string;
  statusMsgFrame : Z;
  showSplash : bool;
  splashFrame : Z;
  searchTarget : string;
}.

Definition set_app (a : App.t) (ui : t) : t :=
  mk a (routeAnimFrame ui) (statusMsg ui) (statusMsgFrame ui) (showSplash ui)
     (splashFrame ui) (searchTarget ui).
End UI.

(** [NewApp], with the splash screen up for 20 frames. *)
Definition NewUI (config : Config.t) : UI.t :=
  UI.mk (NewApp config) 0 "" 0 true 20 "".

(** What a handler asks for besides changing the state: a write of the
    configuration file, a refresh. *)
Inductive effect :=
  | DoSave (c : Config.t)
  | DoRefresh.

(** Keys Up and [k] (lines 729-734 and 748-753). *)
Definition keyUp (ui : UI.t) : UI.t :=
  let a := UI.app ui in
  if bool_decide (0 < App.selectedIdx a) then
    UI.mk (Upd.selectedIdx (App.selectedIdx a - 1) a) 0 (UI.statusMsg ui)
          (UI.statusMsgFrame ui) (UI.showSplash ui) (UI.splashFrame ui) (UI.searchTarget ui)
  else ui.

(** Keys Down and [j] (lines 735-740 and 754-759). *)
Definition keyDown (ui : UI.t) : UI.t :=
  let a := UI.app ui in
  if bool_decide (App.selectedIdx a < Z.of_nat (length (App.journeys a)) - 1) then
    UI.mk (Upd.selectedIdx (App.selectedIdx a + 1) a) 0 (UI.statusMsg ui)
          (UI.statusMsgFrame ui) (UI.showSplash ui) (UI.splashFrame ui) (UI.searchTarget ui)
  else ui.

(** What key Enter shows (lines 741-745 and 945-950): [Some (Some j)] the
    detail of journey [j], [Some None] nothing, [None] a panic on
    [a.journeys[a.selectedIdx]]. *)
Definition keyEnter (ui : UI.t) : option (option Journey.t) :=
  let a := UI.app ui in
  if bool_decide (0 < length (App.journeys a))%nat then
    if bool_decide (Z.of_nat (length (App.journeys a)) ≤ App.selectedIdx a) then Some None
    else if bool_decide (App.selectedIdx a < 0) then None
    else Some (App.journeys a !! Z.to_nat (App.selectedIdx a))
  else Some None.

(** Key [R] (lines 763-767): origin and destination change places. *)
Definition keyReverse (ui : UI.t) : UI.t * list effect :=
  let c := App.config (UI.app ui) in
  let c' := Config.mk (Config.Routes c) (Config.LastDest c) (Config.LastOrigin c) in
  (UI.set_app (Upd.config c' (UI.app ui)) ui, [DoSave c'; DoRefresh]).

(** [selectStation]. *)
Definition selectStation (station : Station.t) (ui : UI.t) : UI.t * list effect :=
  let c := App.config (UI.app ui) in
  if bool_decide (UI.searchTarget ui = "origin") then
    let c' := Config.mk (Config.Routes c) station (Config.LastDest c) in
    (UI.mk (Upd.config c' (UI.app ui)) (UI.routeAnimFrame ui) (UI.statusMsg ui)
           (UI.statusMsgFrame ui) (UI.showSplash ui) (UI.splashFrame ui) "dest", [])
  else
    let c' := Config.mk (Config.Routes c) (Config.LastOrigin c) station in
    (UI.set_app (Upd.config c' (UI.app ui)) ui, [DoSave c'; DoRefresh]).

(** [showSearch]. *)
Definition showSearch (target : string) (ui : UI.t) : UI.t :=
  UI.mk (UI.app ui) (UI.routeAnimFrame ui) (UI.statusMsg ui) (UI.statusMsgFrame ui)
        (UI.showSplash ui) (UI.splashFrame ui) target.

(** The test of line 929: a favourite is the current route. *)
Definition sameRoute (c : Config.t) (fav : Station.t * Station.t) : bool :=
  bool_decide (Station.ID fav.1 = Station.ID (Config.LastOrigin c))
  && bool_decide (Station.ID fav.2 = Station.ID (Config.LastDest c)).

(** [addFavorite]. *)
Definition addFavorite (ui : UI.t) : UI.t * list effect :=
  let c := App.config (UI.app ui) in
  if existsb (sameRoute c) (Config.Routes c) then
    (UI.mk (UI.app ui) (UI.routeAnimFrame ui) "Already in favorites" 30
           (UI.showSplash ui) (UI.splashFrame ui) (UI.searchTarget ui), [])
  else
    let c' := Config.mk (Config.Routes c ++ [(Config.LastOrigin c, Config.LastDest c)])%list
                        (Config.LastOrigin c) (Config.LastDest c) in
    (UI.mk (Upd.config c' (UI.app ui)) (UI.routeAnimFrame ui) "★ Added to favorites!" 30
           (UI.showSplash ui) (UI.splashFrame ui) (UI.searchTarget ui), [DoSave c']).

(** [loadFavorite]. *)
Definition loadFavorite (idx : Z) (ui : UI.t) : UI.t * list effect :=
  let c := App.config (UI.app ui) in
  if bool_decide (0 ≤ idx) && bool_decide (idx < Z.of_nat (length (Config.Routes c))) then
    match Config.Routes c !! Z.to_nat idx with
    | Some fav =>
        let c' := Config.mk (Config.Routes c) fav.1 fav.2 in
        (UI.set_app (Upd.config c' (UI.app ui)) ui, [DoSave c'; DoRefresh])
    | None => (ui, [])
    end
  else (ui, []).

(** Key [d] in the favourites list (lines 897-905); [idx] is the list's
    current item. *)
Definition deleteFavorite (idx : Z) (ui : UI.t) : UI.t * list effect :=
  let c := App.config (UI.app ui) in
  if bool_decide (0 < length (Config.Routes c))%nat
     && bool_decide (0 ≤ idx) && bool_decide (idx < Z.of_nat (length (Config.Routes c))) then
    let c' := Config.mk (take (Z.to_nat idx) (Config.Routes c)
                           ++ drop (Z.to_nat idx + 1) (Config.Routes c))%list
                        (Config.LastOrigin c) (Config.LastDest c) in
    (UI.set_app (Upd.config c' (UI.app ui)) ui, [DoSave c'])
  else (ui, []).

(** One tick of the animation clock (lines 1292-1332); the flag tells
    whether the tick queues the first refresh. *)
Definition tick (ui : UI.t) : UI.t * bool :=
  let a := UI.app ui in
  let animFrame := wrap64 (App.animFrame a + 1) in
  let routeAnimFrame :=
    if bool_decide (App.selectedIdx a < Z.of_nat (length (App.journeys a)))
    then wrap64 (UI.routeAnimFrame ui + 1) else UI.routeAnimFrame ui in
  if UI.showSplash ui then
    let splashFrame := wrap64 (UI.splashFrame ui - 1) in
    if bool_decide (splashFrame ≤ 0) then
      (UI.mk (Upd.animFrame animFrame a) routeAnimFrame (UI.statusMsg ui)
             (UI.statusMsgFrame ui) false splashFrame (UI.searchTarget ui), true)
    else
      (UI.mk (Upd.animFrame animFrame a) routeAnimFrame (UI.statusMsg ui)
             (UI.statusMsgFrame ui) true splashFrame (UI.searchTarget ui), false)
  else
    let newHighlight :=
      if bool_decide (0 < App.newHighlight a) then App.newHighlight a - 1
      else App.newHighlight a in
    let statusMsgFrame :=
      if bool_decide (0 < UI.statusMsgFrame ui) then UI.statusMsgFrame ui - 1
      else UI.statusMsgFrame ui in
    let journeys :=
      if bool_decide (50 < animFrame) then Journey.set_IsNew false <$> App.journeys a
      else App.journeys a in
    (UI.mk (Upd.journeys journeys (Upd.newHighlight newHighlight (Upd.animFrame animFrame a)))
           routeAnimFrame (UI.statusMsg ui) statusMsgFrame false (UI.splashFrame ui)
           (UI.searchTarget ui), false).

(** [ticks n ui]: [n] ticks in a row, nothing else in between. *)
Fixpoint ticks (n : nat) (ui : UI.t) : UI.t :=
  match n with
  | O => ui
  | S n' => ticks n' (tick ui).1
  end.

(* ===================================================================== *)
(** ** A reference implementation of the library functions

    Used only to run the code on concrete inputs.  [Ref.ToLower] lowers
    ASCII letters; [Ref.Parse] and [Ref.Format] read and print the
    fixed-width profile [YYYY-MM-DDTHH:MM:SS] followed by [Z] or [+HH:MM] /
    [-HH:MM] (Go's parser accepts more, e.g. fractional seconds);
    [Ref.insertionSort] is the insertion sort Go's [sort.Slice] runs on
    slices of at most 12 elements. *)
(* ===================================================================== *)

Module Ref.

Definition lowerByte (c : ascii) : ascii :=
  let n := nat_of_ascii c in
  if bool_decide (65 ≤ n ≤ 90)%nat then ascii_of_nat (n + 32) else c.

Fixpoint ToLower (s : string) : string :=
  match s with
  | EmptyString => EmptyString
  | String c s' => String (lowerByte c) (ToLower s')
  end.

Definition digit (c : ascii) : option Z :=
  let n := Z.of_nat (nat_of_ascii c) in
  if bool_decide (48 ≤ n ≤ 57) then Some (n - 48) else None.

Definition num2 (a b : ascii) : option Z :=
  match digit a, digit b with
  | Some x, Some y => Some (10 * x + y)
  | _, _ => None
  end.

Definition isLeap (y : Z) : bool :=
  bool_decide (y `mod` 4 = 0) && (negb (bool_decide (y `mod` 100 = 0)) || bool_decide (y `mod` 400 = 0)).

Definition daysIn (y m : Z) : Z :=
  if bool_decide (m = 2) then (if isLeap y then 29 else 28)
  else if bool_decide (m = 4 ∨ m = 6 ∨ m = 9 ∨ m = 11) then 30 else 31.

(** Days from 0001-01-01 to the given date of the proleptic Gregorian
    calendar. *)
Definition daysSinceYear1 (y m d : Z) : Z :=
  let y' := if bool_decide (m ≤ 2) then y - 1 else y in
  let era := y' `div` 400 in
  let yoe := y' - era * 400 in
  let mp := if bool_decide (2 < m) then m - 3 else m + 9 in
  let doy := (153 * mp + 2) `div` 5 + d - 1 in
  let doe := yoe * 365 + yoe `div` 4 - yoe `div` 100 + doy in
  era * 146097 + doe - 306.

(** The date (year, month, day) a number of days after 0001-01-01. *)
Definition civil (days : Z) : Z * Z * Z :=
  let z := days + 306 in
  let era := z `div` 146097 in
  let doe := z - era * 146097 in
  let yoe := (doe - doe `div` 1460 + doe `div` 36524 - doe `div` 146096) `div` 365 in
  let doy := doe - (365 * yoe + yoe `div` 4 - yoe `div` 100) in
  let mp := (5 * doy + 2) `div` 153 in
  let d := doy - (153 * mp + 2) `div` 5 + 1 in
  let m := if bool_decide (mp < 10) then mp + 3 else mp - 9 in
  let y := yoe + era * 400 in
  (if bool_decide (m ≤ 2) then y + 1 else y, m, d).

Definition parseZone (zone : list ascii) : option Z :=
  match zone with
  | ["Z"%char] => Some 0
  | [sign; h1; h2; ":"%char; m1; m2] =>
      match num2 h1 h2, num2 m1 m2 with
      | Some h, Some m =>
          if bool_decide (h ≤ 24 ∧ m ≤ 60) then
            if decide (sign = "+"%char) then Some (h * 3600 + m * 60)
            else if decide (sign = "-"%char) then Some (- (h * 3600 + m * 60))
            else None
          else None
      | _, _ => None
      end
  | _ => None
  end.

Definition Parse (s : string) : option Time.t :=
  match list_ascii_of_string s with
  | y1 :: y2 :: y3 :: y4 :: "-"%char :: mo1 :: mo2 :: "-"%char :: d1 :: d2 :: "T"%char
    :: h1 :: h2 :: ":"%char :: mi1 :: mi2 :: ":"%char :: s1 :: s2 :: zone =>
      match num2 y1 y2, num2 y3 y4, num2 mo1 mo2, num2 d1 d2,
            num2 h1 h2, num2 mi1 mi2, num2 s1 s2, parseZone zone with
      | Some yh, Some yl, Some mo, Some d, Some h, Some mi, Some sec, Some off =>
          let y := 100 * yh + yl in
          if bool_decide (1 ≤ mo ≤ 12 ∧ 1 ≤ d ≤ daysIn y mo ∧ h < 24 ∧ mi < 60 ∧ sec < 60)
          then Some (Time.mk ((daysSinceYear1 y mo d * 86400 + h * 3600 + mi * 60 + sec - off)
                              * 10 ^ 9) off)
          else None
      | _, _, _, _, _, _, _, _ => None
      end
  | _ => None
  end.

Definition digitChar (n : Z) : ascii := ascii_of_nat (Z.to_nat (48 + n `mod` 10)).

Definition pad2 (n : Z) : string :=
  String (digitChar (n `div` 10)) (String (digitChar n) EmptyString).

Definition formatZone (offset : Z) : string :=
  let zone := offset `quot` 60 in
  if bool_decide (offset = 0) then "Z"
  else
    let sign := if bool_decide (zone < 0) then "-" else "+" in
    sign +:+ pad2 (Z.abs zone `div` 60) +:+ ":" +:+ pad2 (Z.abs zone `mod` 60).

Definition Format (x : Time.t) : string :=
  let local := Time.ns x `div` 10 ^ 9 + Time.offset x in
  let '(y, m, d) := civil (local `div` 86400) in
  let s := local `mod` 86400 in
  pad2 (y `div` 100) +:+ pad2 y +:+ "-" +:+ pad2 m +:+ "-" +:+ pad2 d +:+ "T"
    +:+ pad2 (s `div` 3600) +:+ ":" +:+ pad2 ((s `mod` 3600) `div` 60) +:+ ":" +:+ pad2 (s `mod` 60)
    +:+ formatZone (Time.offset x).

(** Go's [insertionSortLessFunc]: each element in turn moves left past the
    elements it is [less] than.  [sortedRev] is the part already sorted, last
    element first. *)
Fixpoint insertLess {A} (less : A → A → bool) (x : A) (sortedRev : list A) : list A :=
  match sortedRev with
  | [] => [x]
  | y :: r => if less x y then y :: insertLess less x r else x :: y :: r
  end.

Definition insertionSort {A} (less : A → A → bool) (l : list A) : list A :=
  reverse (foldl (λ acc x, insertLess less x acc) [] l).

End Ref.

(* ===================================================================== *)
(** ** Notions the properties are stated with *)
(* ===================================================================== *)

Section Notions.
Context {lib : GoLib}.

(** A remark is about occupancy. *)
Definition aboutOccupancy (r : APIRemark.t) : Prop :=
  strings_Contains (strings_ToLower (APIRemark.Code r)) "occup" = true ∨
  strings_Contains (strings_ToLower (APIRemark.Text r)) "occupancy" = true.

(** The text of a remark, case ignored, has a keyword. *)
Definition hasKeyword (r : APIRemark.t) (kw : string) : Prop :=
  strings_Contains (strings_ToLower (APIRemark.Text r)) kw = true.

(** [assigns r lvl]: remark [r] on its own classifies the occupancy as
    [lvl], with "low" looked for before "medium" before "high". *)
Inductive assigns (r : APIRemark.t) : string → Prop :=
  | assigns_low :
      aboutOccupancy r → hasKeyword r "low" → assigns r "low"
  | assigns_medium :
      aboutOccupancy r → ¬ hasKeyword r "low" →
      hasKeyword r "medium" ∨ hasKeyword r "moderate" → assigns r "medium"
  | assigns_high :
      aboutOccupancy r → ¬ hasKeyword r "low" →
      ¬ hasKeyword r "medium" → ¬ hasKeyword r "moderate" →
      hasKeyword r "high" → assigns r "high".

(** Two remarks that differ at most in the case of their letters. *)
Definition sameIgnoringCase (r r' : APIRemark.t) : Prop :=
  strings_ToLower (APIRemark.Code r) = strings_ToLower (APIRemark.Code r') ∧
  strings_ToLower (APIRemark.Text r) = strings_ToLower (APIRemark.Text r').

(** Ascending by [LeaveAt], ties by ascending [TotalWait]. *)
Definition journeyOrder (a b : Journey.t) : Prop :=
  Time.ns (Journey.LeaveAt a) < Time.ns (Journey.LeaveAt b) ∨
  (Time.ns (Journey.LeaveAt a) = Time.ns (Journey.LeaveAt b) ∧
   Journey.TotalWait a ≤ Journey.TotalWait b).

(** A raw leg that becomes a [Leg]: it has a line and both its times parse. *)
Definition boarded (al : APILeg.t) : option (APILine.t * Time.t * Time.t) :=
  match APILeg.Line al, parseTime (APILeg.Departure al), parseTime (APILeg.Arrival al) with
  | Some line, Some dep, Some arr => Some (line, dep, arr)
  | _, _, _ => None
  end.

(** The arrival a raw leg leaves behind as the reference for the next wait:
    a transfer or walk gap when its arrival parses, a boarded leg always. *)
Definition arrivalOf (al : APILeg.t) : option Time.t :=
  match APILeg.Line al with
  | None => parseTime (APILeg.Arrival al)
  | Some _ => (λ b, b.2) <$> boarded al
  end.

(** The previous-arrival reference after the raw legs [before]: the zero
    time when there is none. *)
Definition previousArrival (before : list APILeg.t) : Time.t :=
  default Time.zero (last (omap arrivalOf before)).

(** Wait-before as the specification words it. *)
Definition waitSpec (prev dep : Time.t) : Z :=
  if Time.IsZero prev then 0 else 0 `max` Time.Sub dep prev.

(** The legs of a raw journey as the specification words them; [before] are
    the raw legs already walked. *)
Fixpoint legsSpec (before raw : list APILeg.t) : list Leg.t :=
  match raw with
  | [] => []
  | al :: rest =>
      match boarded al with
      | Some (line, dep, arr) =>
          mkLeg al line dep arr (waitSpec (previousArrival before) dep)
            :: legsSpec (before ++ [al]) rest
      | None => legsSpec (before ++ [al]) rest
      end
  end.

(** The sum of Durations as Go computes it, and as an integer. *)
Definition durSum (ds : list Z) : Z := foldl dur_add 0 ds.

(** No raw leg of the journey arrives before its first raw leg departs. *)
Definition arrivalsAfterStart (aj : APIJourney.t) : Prop :=
  ∀ first rest start,
    APIJourney.Legs aj = first :: rest →
    parseTime (APILeg.Departure first) = Some start →
    Forall (λ al, ∀ arr, parseTime (APILeg.Arrival al) = Some arr → Time.le start arr)
           (APIJourney.Legs aj).

(** A journey has a leg of a mode the mapping disables. *)
Definition usesDisabled (filters : gmap string bool) (j : Journey.t) : Prop :=
  Exists (λ leg, filters !! Leg.Product leg = Some false) (Journey.Legs j).

(** Every entry of an identity map is [true] (the code stores nothing else). *)
Definition idSet (m : gmap string bool) : Prop := map_Forall (λ _ b, b = true) m.

(** The identities of a list of journeys. *)
Definition identities (journeys : list Journey.t) : gset string :=
  list_to_set (omap journeyID journeys).

(** [newIDs] with the identities [ids] entered (line 1233, once for each). *)
Definition addIDs (newIDs : gmap string bool) (ids : list string) : gmap string bool :=
  foldl (λ m id, <[id := true]> m) newIDs ids.

(** Every line's sample list has at most 20 entries. *)
Definition historyBounded (hist : gmap string DelayHistory.t) : Prop :=
  map_Forall (λ _ h, (length (DelayHistory.Delays h) ≤ 20)%nat) hist.

End Notions.

(** Notions for the further properties. *)
Section MoreNotions.
Context {lib : GoLib}.

(** The last [n] elements of a list (all of it when it is shorter). *)
Definition lastN {A} (n : nat) (l : list A) : list A := drop (length l - n) l.

(** The samples a batch holds for a line: the departure delays, in whole
    minutes, of the late legs of that line, in the order of the journeys and
    of their legs. *)
Definition lateSamples (line : string) (journeys : list Journey.t) : list Z :=
  (λ leg, Leg.DepDelay leg `quot` 60) <$>
    filter (λ leg, 0 < Leg.DepDelay leg ∧ Leg.Line leg = line)
           (journeys ≫= Journey.Legs).

(** Every entry of the history is filed under its own line, holds at least
    one sample, and holds no negative sample. *)
Definition historyWellFormed (hist : gmap string DelayHistory.t) : Prop :=
  map_Forall (λ line h, DelayHistory.Line h = line
                        ∧ DelayHistory.Delays h ≠ []
                        ∧ Forall (λ d, 0 ≤ d) (DelayHistory.Delays h)) hist.

(** Line 1156: the journey list shows the "new" star. *)
Definition newIndicator (a : App.t) (j : Journey.t) : bool :=
  Journey.IsNew j && bool_decide (0 < App.newHighlight a).

(** The selection points into the journey list, or is 0 when the list is
    empty. *)
Definition selectionValid (a : App.t) : Prop :=
  0 ≤ App.selectedIdx a
  ∧ (App.selectedIdx a = 0 ∨ App.selectedIdx a < Z.of_nat (length (App.journeys a))).

(** What identifies a favourite: the ids of its two stations. *)
Definition routeKey (fav : Station.t * Station.t) : string * string :=
  (Station.ID fav.1, Station.ID fav.2).

(** No two favourites join the same two stations. *)
Definition routesDistinct (c : Config.t) : Prop := NoDup (routeKey <$> Config.Routes c).

(** The configuration with the current route added to the favourites. *)
Definition withCurrentRoute (c : Config.t) : Config.t :=
  Config.mk (Config.Routes c ++ [(Config.LastOrigin c, Config.LastDest c)])%list
            (Config.LastOrigin c) (Config.LastDest c).

(** What can happen to the application, one at a time: a key, a choice in
    the search or favourites list, a tick of the animation clock, a refresh
    running to completion. *)
Inductive event :=
  | EvKeyUp
  | EvKeyDown
  | EvReverse
  | EvAddFavorite
  | EvLoadFavorite (idx : Z)
  | EvDeleteFavorite (idx : Z)
  | EvShowSearch (target : string)
  | EvSelectStation (station : Station.t)
  | EvTick
  | EvRefresh (net : Network) (now : Time.t).

(** The state after an event; [None] when the refresh panics. *)
Definition step (ui : UI.t) (ev : event) : option UI.t :=
  match ev with
  | EvKeyUp => Some (keyUp ui)
  | EvKeyDown => Some (keyDown ui)
  | EvReverse => Some (keyReverse ui).1
  | EvAddFavorite => Some (addFavorite ui).1
  | EvLoadFavorite idx => Some (loadFavorite idx ui).1
  | EvDeleteFavorite idx => Some (deleteFavorite idx ui).1
  | EvShowSearch target => Some (showSearch target ui)
  | EvSelectStation station => Some (selectStation station ui).1
  | EvTick => Some (tick ui).1
  | EvRefresh net now => (λ a, UI.set_app a ui) <$> refresh (UI.app ui) net now
  end.

Fixpoint run (ui : UI.t) (events : list event) : option UI.t :=
  match events with
  | [] => Some ui
  | ev :: rest =>
      match step ui ev with
      | None => None
      | Some ui' => run ui' rest
      end
  end.

(** The number of ticks among some events. *)
Fixpoint tickCount (events : list event) : nat :=
  match events with
  | [] => 0
  | EvTick :: rest => S (tickCount rest)
  | _ :: rest => tickCount rest
  end.

(** How many glyphs [sparkline] returns for [n] values in a positive
    [width]: with no value, [width]; otherwise one for every [step]-th value,
    [width] at most, but no fewer than a third of [width] rounded up, the
    padding being counted in bytes and a glyph being three. *)
Definition sparkGlyphs (n : nat) (width : Z) : nat :=
  match n with
  | O => Z.to_nat width
  | _ =>
      let step := 1 `max` (Z.of_nat n `quot` width) in
      Z.to_nat ((width `min` ((Z.of_nat n + step - 1) `div` step)) `max` ((width + 2) `div` 3))
  end.

(** A string made of [n] glyphs of [blocks]. *)
Definition glyphString (n : nat) (s : string) : Prop :=
  ∃ glyphs, length glyphs = n ∧ Forall (λ g, g ∈ blocks) glyphs
            ∧ s = foldr String.append "" glyphs.

End MoreNotions.

(** Inputs for examples. *)
Module Ex.

Definition line (name product : string) : APILine.t := APILine.mk name product "" "".

Definition rawLeg (l : option APILine.t) (dep arr : string) : APILeg.t :=
  APILeg.mk None None dep arr l None None "" "" "" "" [] "" None.

Definition ride (name product dep arr : string) : APILeg.t :=
  rawLeg (Some (line name product)) dep arr.

Definition walk (dep arr : string) : APILeg.t := rawLeg None dep arr.

Definition late (seconds : Z) (al : APILeg.t) : APILeg.t :=
  APILeg.mk (APILeg.Origin al) (APILeg.Destination al) (APILeg.Departure al)
            (APILeg.Arrival al) (APILeg.Line al) (Some seconds) (APILeg.ArrivalDelay al)
            (APILeg.DeparturePlatform al) (APILeg.PlannedDeparturePlatform al)
            (APILeg.ArrivalPlatform al) (APILeg.PlannedArrivalPlatform al)
            (APILeg.Remarks al) (APILeg.TripId al) (APILeg.CycleMin al).

Definition response (journeys : list (list APILeg.t)) : APIJourneysResponse.t :=
  APIJourneysResponse.mk (map APIJourney.mk journeys).

Definition config : Config.t :=
  Config.mk [] (Station.mk "900180001" "S Koepenick (Berlin)" "")
            (Station.mk "900100041" "Brunnenstr./Invalidenstr. (Berlin)" "").

(** A network that answers every request with [resp], and one that fails. *)
Definition answers (resp : APIJourneysResponse.t) : Network := λ _ _, Some resp.
Definition fails : Network := λ _ _, None.

Definition clock (n : Z) : Time.t := Time.mk n 0.

(** One journey of one leg. *)
Definition morning : APIJourneysResponse.t :=
  response [[ride "S3" "suburban" "2024-03-01T08:00:00+01:00" "2024-03-01T08:30:00+01:00"]].

(** One leg that arrives an hour before it departs. *)
Definition backwards : APIJourneysResponse.t :=
  response [[ride "S3" "suburban" "2024-03-01T10:00:00+01:00" "2024-03-01T09:00:00+01:00"]].

(** A walk to the station, then one leg. *)
Definition walkFirst : APIJourneysResponse.t :=
  response [[walk "2024-03-01T08:00:00+01:00" "2024-03-01T08:05:00+01:00";
             ride "S3" "suburban" "2024-03-01T08:10:00+01:00" "2024-03-01T08:30:00+01:00"]].

(** Two legs with a transfer gap between them; the tram leaves 3 minutes
    late. *)
Definition change : APIJourneysResponse.t :=
  response [[ride "S3" "suburban" "2024-03-01T08:00:00Z" "2024-03-01T08:20:00Z";
             walk "2024-03-01T08:20:00Z" "2024-03-01T08:25:00Z";
             late 180 (ride "M10" "tram" "2024-03-01T08:31:00Z" "2024-03-01T08:40:00Z")]].

(** The raw journey of [backwards] and the raw journey of [change] in one
    batch. *)
Definition mixed : APIJourneysResponse.t :=
  APIJourneysResponse.mk
    (APIJourneysResponse.Journeys backwards ++ APIJourneysResponse.Journeys change).

(** Three legs whose times are centuries apart. *)
Definition farApart : APIJourneysResponse.t :=
  response [[ride "S3" "suburban" "2000-01-01T00:00:00Z" "2000-01-01T00:10:00Z";
             ride "U8" "subway" "2400-01-01T00:00:00Z" "2000-01-01T00:20:00Z";
             ride "M10" "tram" "2400-01-01T00:00:00Z" "2400-01-01T00:10:00Z"]].

(** Remarks: a vehicle feature, and three remarks about occupancy. *)
Definition lowFloor : APIRemark.t := APIRemark.mk "hint" "bf" "Low-floor vehicle".
Definition moderate : APIRemark.t := APIRemark.mk "hint" "text.occup.2" "Moderate".
Definition crowded : APIRemark.t := APIRemark.mk "hint" "text.occup.3" "High".

(** A delay history whose line M10 holds the 20 samples 1, ..., 20. *)
Definition fullHistory : gmap string DelayHistory.t :=
  {[ "M10" := DelayHistory.mk "M10" (seqZ 1 20) (clock 0) ]}.

(** A leg of line M10 that leaves 180 seconds late. *)
Definition lateLeg : Leg.t :=
  Leg.mk "M10" "" "tram" "" "" (clock 1) (clock 2) 0 180 0 "" [] "" "" 0 "" "".

(** The state once the splash screen is down, both countdowns armed. *)
Definition armed : UI.t :=
  UI.mk (Upd.newHighlight 30 (NewApp config)) 0 "Already in favorites" 30 false 0 "".

(** A scaling for running [sparkline]: the quotient in exact arithmetic,
    rounded down. *)
Definition scale7 (x y : Z) : Z := (x * 7) `div` y.

End Ex.

(** Arithmetic with the bounds of an int64 written out. *)
Ltac int64_lia :=
  unfold minDuration, maxDuration, wrap64 in *;
  change (2 ^ 63) with 9223372036854775808 in *;
  change (2 ^ 64) with 18446744073709551616 in *;
  lia.

(* ===================================================================== *)
(** ** The reference implementation meets the library's contract *)
(* ===================================================================== *)

Section RefSort.
Context {A : Type} (less : A → A → bool).

Lemma insertLess_perm (x : A) (l : list A) : Ref.insertLess less x l ≡ₚ x :: l.
Proof.
  induction l as [|y r IH]; simpl; [done|].
  destruct (less x y); [|done].
  rewrite IH. apply Permutation_swap.
Qed.

Lemma insertionSort_perm (l : list A) : Ref.insertionSort less l ≡ₚ l.
Proof.
  unfold Ref.insertionSort. rewrite reverse_Permutation.
  assert (G : ∀ acc, foldl (λ acc x, Ref.insertLess less x acc) acc l ≡ₚ (acc ++ l)%list).
  { induction l as [|x l IH]; intros acc; simpl.
    - by rewrite app_nil_r.
    - rewrite IH, insertLess_perm. simpl. apply Permutation_middle. }
  apply (G []).
Qed.

Hypothesis less_asym_hyp : less_asym less.
Hypothesis less_negtrans_hyp : less_negtrans less.

(** The sorted part, read last element first, never rises. *)
Let falling : list A → Prop := StronglySorted (λ a b, less a b = false).

Lemma insertLess_falling (x : A) (l : list A) : falling l → falling (Ref.insertLess less x l).
Proof.
  unfold falling. induction l as [|y r IH]; intros Hl; simpl.
  - repeat constructor.
  - apply StronglySorted_inv in Hl as [Hr Hy].
    destruct (less x y) eqn:Hxy.
    + constructor; [by apply IH|].
      rewrite insertLess_perm. constructor; [by apply less_asym_hyp | done].
    + constructor; [by constructor|].
      constructor; [done|].
      eapply Forall_impl; [exact Hy|]. intros b Hyb. simpl in Hyb.
      destruct (less x b) eqn:Hxb; [|done].
      destruct (less_negtrans_hyp x y b Hxb); congruence.
Qed.

Lemma falling_rev (l : list A) : falling l → sorted_by less (reverse l).
Proof.
  unfold falling, sorted_by. induction 1 as [|a l Hl IH Ha]; [constructor|].
  rewrite reverse_cons. apply StronglySorted_app_2; [|done|repeat constructor].
  intros x1 x2 Hx1 Hx2. apply list_elem_of_singleton in Hx2 as ->.
  rewrite elem_of_reverse in Hx1.
  rewrite list.Forall_forall in Ha. by apply Ha.
Qed.

Lemma insertionSort_sorted (l : list A) : sorted_by less (Ref.insertionSort less l).
Proof.
  unfold Ref.insertionSort. apply falling_rev.
  assert (G : ∀ acc, falling acc → falling (foldl (λ acc x, Ref.insertLess less x acc) acc l)).
  { induction l as [|x l IH]; intros acc Hacc; simpl; [done|].
    apply IH. by apply insertLess_falling. }
  apply G. constructor.
Qed.

End RefSort.

(** The reference implementation as a [GoLib]. *)
Definition refLib : GoLib :=
  {| strings_ToLower := Ref.ToLower;
     time_Parse_RFC3339 := Ref.Parse;
     time_Format_RFC3339 := Ref.Format;
     sort_Slice := @Ref.insertionSort;
     sort_Slice_perm := @insertionSort_perm;
     sort_Slice_sorted := @insertionSort_sorted |}.

(* ===================================================================== *)
(** ** Occupancy classification *)
(* ===================================================================== *)

Section Occupancy.
Context {lib : GoLib}.

Lemma aboutOccupancy_orb (r : APIRemark.t) :
  aboutOccupancy r ↔
  strings_Contains (strings_ToLower (APIRemark.Code r)) "occup"
  || strings_Contains (strings_ToLower (APIRemark.Text r)) "occupancy" = true.
Proof. unfold aboutOccupancy. by rewrite orb_true_iff. Qed.

Lemma parseOccupancy_cons_assigns (r : APIRemark.t) (rest : list APIRemark.t) (lvl : string) :
  assigns r lvl → parseOccupancy (r :: rest) = lvl.
Proof.
  intros Hr. simpl.
  destruct Hr as [Ho Hl | Ho Hl Hm | Ho Hl Hm Hm' Hh];
    apply aboutOccupancy_orb in Ho; rewrite Ho; unfold hasKeyword in *.
  - by rewrite Hl.
  - apply not_true_is_false in Hl. rewrite Hl.
    apply orb_true_iff in Hm. by rewrite Hm.
  - apply not_true_is_false in Hl, Hm, Hm'. by rewrite Hl, Hm, Hm', Hh.
Qed.

Lemma parseOccupancy_cons_skip (r : APIRemark.t) (rest : list APIRemark.t) :
  (∀ lvl, ¬ assigns r lvl) → parseOccupancy (r :: rest) = parseOccupancy rest.
Proof.
  intros Hr. simpl.
  destruct (_ || _) eqn:Ho; [|done]. apply aboutOccupancy_orb in Ho.
  destruct (strings_Contains _ "low") eqn:Hl.
  { destruct (Hr "low"). by constructor. }
  destruct (_ || _) eqn:Hm.
  { destruct (Hr "medium"). apply assigns_medium; unfold hasKeyword; [done|congruence|].
    by apply orb_true_iff. }
  apply orb_false_iff in Hm as [Hm Hm'].
  destruct (strings_Contains _ "high") eqn:Hh; [|done].
  destruct (Hr "high"). apply assigns_high; unfold hasKeyword; congruence.
Qed.

Lemma parseOccupancy_ignores_case (remarks remarks' : list APIRemark.t) :
  Forall2 sameIgnoringCase remarks remarks' →
  parseOccupancy remarks' = parseOccupancy remarks.
Proof.
  induction 1 as [|r r' l l' [Hc Ht] _ IH]; [done|].
  simpl. by rewrite Hc, Ht, IH.
Qed.

(** C5, amended. [parseOccupancy] scans the remarks in order, ignoring case.
    Only a remark about occupancy counts (its code has "occup" or its text has
    "occupancy"); a keyword in any other remark is ignored.  The first remark
    that assigns a level decides, with "low" looked for before "medium" or
    "moderate", which both give "medium", before "high" inside that remark
    ([assigns]); when no remark assigns a level the result is the empty
    string (no level); and remarks that differ only in the case of their
    letters are classified alike. *)
Theorem parseOccupancy_first_match (remarks : list APIRemark.t) :
  (∀ before r after lvl,
      remarks = (before ++ r :: after)%list →
      Forall (λ r', ∀ lvl', ¬ assigns r' lvl') before →
      assigns r lvl →
      parseOccupancy remarks = lvl)
  ∧ (Forall (λ r, ∀ lvl, ¬ assigns r lvl) remarks → parseOccupancy remarks = "")
  ∧ (∀ remarks', Forall2 sameIgnoringCase remarks remarks' →
       parseOccupancy remarks' = parseOccupancy remarks).
Proof.
  split; [|split].
  - intros before r after lvl -> Hbefore Hr.
    induction Hbefore as [|r' before Hr' _ IH]; simpl app.
    + by apply parseOccupancy_cons_assigns.
    + by rewrite parseOccupancy_cons_skip.
  - induction 1 as [|r l Hr _ IH]; [done|].
    by rewrite parseOccupancy_cons_skip.
  - apply parseOccupancy_ignores_case.
Qed.

End Occupancy.

(** A remark about occupancy whose text has both "HIGH" and "low": "low"
    wins, whatever the case of the letters. *)
Example parseOccupancy_low_before_high :
  parseOccupancy (lib := refLib)
    [APIRemark.mk "hint" "" "Bicycle conveyance: low-floor vehicle";
     APIRemark.mk "hint" "text.OCCUP.1" "HIGH demand expected, Low in first class"] = "low".
Proof. reflexivity. Qed.

(* ===================================================================== *)
(** ** Durations and times *)
(* ===================================================================== *)

Lemma wrap64_range (z : Z) : minDuration ≤ wrap64 z ≤ maxDuration.
Proof.
  pose proof (Z.mod_pos_bound (z + 2 ^ 63) (2 ^ 64) eq_refl). int64_lia.
Qed.

Lemma wrap64_small (z : Z) : minDuration ≤ z ≤ maxDuration → wrap64 z = z.
Proof.
  intros Hz. unfold wrap64. rewrite Z.mod_small; int64_lia.
Qed.


(** Inside the int64 range [Sub] is the difference of the instants. *)
Lemma Sub_exact (x y : Time.t) :
  minDuration ≤ Time.ns x - Time.ns y ≤ maxDuration →
  Time.Sub x y = Time.ns x - Time.ns y.
Proof. intros Hd. unfold Time.Sub. by rewrite bool_decide_true. Qed.

Lemma Sub_pos (x y : Time.t) : Time.After x y = true → 0 < Time.Sub x y.
Proof.
  unfold Time.After, Time.Sub, Time.Before. intros Ha%bool_decide_eq_true.
  case_bool_decide; [lia|]. rewrite bool_decide_false by lia. int64_lia.
Qed.

Lemma Sub_nonpos (x y : Time.t) : Time.After x y = false → Time.Sub x y ≤ 0.
Proof.
  unfold Time.After, Time.Sub, Time.Before. intros Ha%bool_decide_eq_false.
  case_bool_decide as Hr; [lia|].
  rewrite bool_decide_true; int64_lia.
Qed.

(** The wait the code gives is the wait the specification words. *)
Lemma waitFor_waitSpec (prev dep : Time.t) : waitFor prev dep = waitSpec prev dep.
Proof.
  unfold waitFor, waitSpec. destruct (Time.IsZero prev); simpl; [done|].
  destruct (Time.After dep prev) eqn:Ha.
  - apply Sub_pos in Ha. lia.
  - apply Sub_nonpos in Ha. lia.
Qed.


Lemma durSum_snoc (ds : list Z) (d : Z) : durSum (ds ++ [d]) = dur_add (durSum ds) d.
Proof. unfold durSum. by rewrite foldl_snoc. Qed.

Lemma durSum_range (ds : list Z) : minDuration ≤ durSum ds ≤ maxDuration.
Proof.
  induction ds as [|d ds _] using rev_ind.
  - unfold durSum. simpl. int64_lia.
  - rewrite durSum_snoc. apply wrap64_range.
Qed.



(* ===================================================================== *)
(** ** The journey builder *)
(* ===================================================================== *)

Section BuilderFacts.
Context {lib : GoLib}.

Lemma previousArrival_snoc (before : list APILeg.t) (al : APILeg.t) :
  previousArrival (before ++ [al]) = default (previousArrival before) (arrivalOf al).
Proof.
  unfold previousArrival. rewrite omap_app, last_app. simpl.
  by destruct (arrivalOf al).
Qed.

(** One raw leg that becomes a [Leg]. *)
Lemma legStep_boarded (st : legState) (al : APILeg.t) line dep arr :
  boarded al = Some (line, dep, arr) →
  minDuration ≤ totalWait st ≤ maxDuration →
  legStep st al =
    mkLegState (legs st ++ [mkLeg al line dep arr (waitSpec (prevArrival st) dep)])
               (dur_add (totalWait st) (waitSpec (prevArrival st) dep)) arr
  ∧ arrivalOf al = Some arr.
Proof.
  unfold boarded, legStep, arrivalOf, boarded. intros Hb Hr.
  destruct (APILeg.Line al) as [line'|]; [|done].
  destruct (parseTime (APILeg.Departure al)) as [dep'|]; [|done].
  destruct (parseTime (APILeg.Arrival al)) as [arr'|]; [|done].
  simplify_eq. split; [|done].
  rewrite waitFor_waitSpec. f_equal.
  unfold waitSpec. destruct (Time.IsZero (prevArrival st)); simpl.
  - unfold dur_add. rewrite Z.add_0_r. by rewrite wrap64_small.
  - destruct (Time.After dep (prevArrival st)) eqn:Ha; [done|].
    apply Sub_nonpos in Ha. rewrite Z.max_l by done.
    unfold dur_add. rewrite Z.add_0_r. by rewrite wrap64_small.
Qed.

(** One raw leg that does not: a gap, or a leg whose times do not parse. *)
Lemma legStep_skipped (st : legState) (al : APILeg.t) :
  boarded al = None →
  legStep st al =
    mkLegState (legs st) (totalWait st) (default (prevArrival st) (arrivalOf al)).
Proof.
  unfold boarded, legStep, arrivalOf, boarded. intros Hb. destruct st as [ls tw pa]. simpl.
  destruct (APILeg.Line al) as [line'|].
  - destruct (parseTime (APILeg.Departure al)) as [dep'|]; [|done].
    by destruct (parseTime (APILeg.Arrival al)) as [arr'|].
  - by destruct (parseTime (APILeg.Arrival al)) as [arr'|].
Qed.

Lemma legLoop_from (raw before : list APILeg.t) (st : legState) :
  prevArrival st = previousArrival before →
  minDuration ≤ totalWait st ≤ maxDuration →
  legs (foldl legStep st raw) = (legs st ++ legsSpec before raw)%list
  ∧ totalWait (foldl legStep st raw) =
      foldl dur_add (totalWait st) (Leg.WaitBefore <$> legsSpec before raw)
  ∧ prevArrival (foldl legStep st raw) = previousArrival (before ++ raw).
Proof.
  revert before st. induction raw as [|al raw IH]; intros before st Hprev Hrange.
  - simpl. by rewrite !app_nil_r.
  - simpl. rewrite (cons_middle al before raw), (assoc_L _ before [al] raw).
    destruct (boarded al) as [[[line dep] arr]|] eqn:Hb.
    + destruct (legStep_boarded st al line dep arr Hb Hrange) as [-> Harr].
      destruct (IH (before ++ [al])%list
                  (mkLegState (legs st ++ [mkLeg al line dep arr (waitSpec (prevArrival st) dep)])
                     (dur_add (totalWait st) (waitSpec (prevArrival st) dep)) arr))
        as (Hl & Hw & Hp); simpl.
      * by rewrite previousArrival_snoc, Harr.
      * apply wrap64_range.
      * rewrite Hl, Hw, Hp. simpl. rewrite <- Hprev.
        by rewrite <- (assoc_L _ (legs st)).
    + rewrite (legStep_skipped st al Hb).
      destruct (IH (before ++ [al])%list
                  (mkLegState (legs st) (totalWait st) (default (prevArrival st) (arrivalOf al))))
        as (Hl & Hw & Hp); simpl; [|done|done].
      by rewrite previousArrival_snoc, Hprev.
Qed.

(** The loop over the raw legs builds the legs the specification words, and
    sums their waits. *)
Lemma legLoop_spec (raw : list APILeg.t) :
  legs (legLoop raw) = legsSpec [] raw
  ∧ totalWait (legLoop raw) = durSum (Leg.WaitBefore <$> legs (legLoop raw)).
Proof.
  destruct (legLoop_from raw [] (mkLegState [] 0 Time.zero)) as (Hl & Hw & _);
    [done | simpl; int64_lia |].
  simpl in *. unfold legLoop. by rewrite Hw, Hl.
Qed.


(** Every leg that is built comes from a boarded raw leg and has its times. *)
Lemma legsSpec_origin (before raw : list APILeg.t) (leg : Leg.t) :
  leg ∈ legsSpec before raw →
  ∃ al line dep, al ∈ raw ∧ boarded al = Some (line, dep, Leg.Arrival leg)
                 ∧ Leg.Departure leg = dep ∧ Leg.Product leg = APILine.Product line.
Proof.
  revert before. induction raw as [|al raw IH]; intros before; simpl.
  - by intros ?%elem_of_nil.
  - destruct (boarded al) as [[[line dep] arr]|] eqn:Hb.
    + intros [->|Hin]%elem_of_cons.
      * exists al, line, dep. simpl. split_and!; [left|done..].
      * destruct (IH _ Hin) as (al' & ? & ? & ? & ?). exists al'. eexists _, _.
        split; [by right|done].
    + intros Hin. destruct (IH _ Hin) as (al' & ? & ? & ? & ?). exists al'. eexists _, _.
      split; [by right|done].
Qed.

(** What a journey that is built is made of. *)
Lemma buildJourney_Some (filters : gmap string bool) (aj : APIJourney.t) (j : Journey.t) :
  buildJourney filters aj = Some j →
  ∃ first rest lastLeg,
    APIJourney.Legs aj = first :: rest
    ∧ Journey.Legs j = legs (legLoop (APIJourney.Legs aj))
    ∧ last (Journey.Legs j) = Some lastLeg
    ∧ filteredOut filters (Journey.Legs j) = false
    ∧ parseTime (APILeg.Departure first) = Some (Journey.LeaveAt j)
    ∧ Journey.ArriveAt j = Leg.Arrival lastLeg
    ∧ Time.IsZero (Journey.LeaveAt j) = false
    ∧ Time.IsZero (Journey.ArriveAt j) = false
    ∧ Journey.Duration j = Time.Sub (Journey.ArriveAt j) (Journey.LeaveAt j)
    ∧ Journey.TotalWait j = totalWait (legLoop (APIJourney.Legs aj))
    ∧ Journey.IsNew j = true.
Proof.
  unfold buildJourney. destruct (APIJourney.Legs aj) as [|first rest] eqn:Hlegs; [done|].
  destruct (last (legs _)) as [lastLeg|] eqn:Hlast; [|done].
  destruct (filteredOut _ _) eqn:Hf; [done|].
  destruct (parseTime (APILeg.Departure first)) as [start|] eqn:Hstart; [|done].
  destruct (_ || _) eqn:Hz; [done|]. apply orb_false_iff in Hz as [Hz1 Hz2].
  intros [= <-]. exists first, rest, lastLeg. simpl. by split_and!.
Qed.

(** A journey that is built has a leg. *)
Lemma buildJourney_legs (filters : gmap string bool) (aj : APIJourney.t) (j : Journey.t) :
  buildJourney filters aj = Some j → Journey.Legs j ≠ [] ∧ Journey.IsNew j = true.
Proof.
  intros Hb.
  destruct (buildJourney_Some _ _ _ Hb)
    as (_ & _ & lastLeg & _ & _ & Hlast & _ & _ & _ & _ & _ & _ & _ & Hnew).
  split; [|exact Hnew]. intros Hnil. rewrite Hnil in Hlast. discriminate Hlast.
Qed.

(** The journeys returned are the journeys built, in some order. *)
Lemma elem_of_buildJourneys (filters : gmap string bool) (resp : APIJourneysResponse.t)
    (j : Journey.t) :
  j ∈ buildJourneys filters resp ↔
  ∃ aj, aj ∈ APIJourneysResponse.Journeys resp ∧ buildJourney filters aj = Some j.
Proof.
  unfold buildJourneys. rewrite sort_Slice_perm. apply list_elem_of_omap.
Qed.

Lemma journeyLess_asym : less_asym journeyLess.
Proof.
  intros a b. unfold journeyLess, Time.Equal, Time.Before.
  repeat case_bool_decide; try done; lia.
Qed.

Lemma journeyLess_negtrans : less_negtrans journeyLess.
Proof.
  intros a b c. unfold journeyLess, Time.Equal, Time.Before.
  repeat case_bool_decide; try done; intros _; try lia; auto.
Qed.

Lemma journeyLess_order (a b : Journey.t) : journeyLess b a = false → journeyOrder a b.
Proof.
  unfold journeyLess, journeyOrder, Time.Equal, Time.Before.
  repeat case_bool_decide; try done; intros _; lia.
Qed.

End BuilderFacts.

Section BuilderClaims.
Context {lib : GoLib}.

(** C2. Whatever the raw batch and the filter mapping, the list the builder
    returns is sorted ascending by [LeaveAt], and journeys leaving at the same
    instant stand in ascending order of [TotalWait]: every journey of the list
    is in [journeyOrder] with every journey after it. *)
Theorem buildJourneys_sorted (filters : gmap string bool) (resp : APIJourneysResponse.t) :
  StronglySorted journeyOrder (buildJourneys filters resp).
Proof.
  unfold buildJourneys.
  pose proof (sort_Slice_sorted _ journeyLess journeyLess_asym journeyLess_negtrans
                (omap (buildJourney filters) (APIJourneysResponse.Journeys resp))) as Hs.
  unfold sorted_by in Hs.
  induction Hs as [|j l _ IH Hj]; constructor; [done|].
  eapply Forall_impl; [exact Hj|]. intros b. apply journeyLess_order.
Qed.


(** C3, amended. Every journey the builder returns has at least one leg, and
    neither its [LeaveAt] nor its [ArriveAt] is the zero time.  The builder
    does not compare the two: the journey is built from a raw journey of the
    batch, and [LeaveAt <= ArriveAt] holds whenever, in a raw journey it is
    built from, no raw leg arrives before the first raw leg departs, whatever
    the other raw journeys of the batch are. *)
Theorem journey_has_legs_and_times (filters : gmap string bool)
    (resp : APIJourneysResponse.t) (j : Journey.t) :
  j ∈ buildJourneys filters resp →
  Journey.Legs j ≠ []
  ∧ Time.IsZero (Journey.LeaveAt j) = false
  ∧ Time.IsZero (Journey.ArriveAt j) = false
  ∧ (∃ aj, aj ∈ APIJourneysResponse.Journeys resp ∧ buildJourney filters aj = Some j)
  ∧ (∀ aj, buildJourney filters aj = Some j → arrivalsAfterStart aj →
           Time.le (Journey.LeaveAt j) (Journey.ArriveAt j)).
Proof.
  intros (aj & Haj & Hb)%elem_of_buildJourneys.
  destruct (buildJourney_Some _ _ _ Hb)
    as (_ & _ & lastLeg & _ & _ & Hlast & _ & _ & _ & Hz1 & Hz2 & _).
  split_and!; [|done|done|by exists aj|].
  - intros Hnil. by rewrite Hnil in Hlast.
  - clear aj Haj Hb lastLeg Hlast. intros aj Hb Hchron.
    destruct (buildJourney_Some _ _ _ Hb)
      as (first & rest & lastLeg & Hraw & Hlegs & Hlast & _ & Hstart & Harr & _).
    specialize (Hchron first rest _ Hraw Hstart).
    assert (lastLeg ∈ legsSpec [] (APIJourney.Legs aj)) as Hin.
    { rewrite <- (proj1 (legLoop_spec _)), <- Hlegs.
      apply last_Some in Hlast as [l' ->]. set_solver. }
    apply legsSpec_origin in Hin as (al & line & dep & Hal & Hboard & _).
    rewrite list.Forall_forall in Hchron. rewrite Harr. apply (Hchron al Hal).
    unfold boarded in Hboard.
    destruct (APILeg.Line al); [|done].
    destruct (parseTime (APILeg.Departure al)); [|done].
    destruct (parseTime (APILeg.Arrival al)); [|done]. by simplify_eq.
Qed.

(** C4, amended. For every journey the builder returns: [LeaveAt] is the
    departure of the first raw leg of the raw journey it was built from (a
    transfer or walk gap included), which is the departure of its first [Leg]
    when that raw leg is itself boarded; [ArriveAt] is the arrival of its last
    [Leg]; and [Duration] is [ArriveAt.Sub (LeaveAt)], the difference of the
    two instants whenever that fits in an int64 of nanoseconds. *)
Theorem journey_times (filters : gmap string bool) (resp : APIJourneysResponse.t)
    (j : Journey.t) :
  j ∈ buildJourneys filters resp →
  ∃ aj first rest lastLeg,
    aj ∈ APIJourneysResponse.Journeys resp
    ∧ APIJourney.Legs aj = first :: rest
    ∧ parseTime (APILeg.Departure first) = Some (Journey.LeaveAt j)
    ∧ (is_Some (boarded first) →
       ∃ firstLeg, head (Journey.Legs j) = Some firstLeg
                   ∧ Journey.LeaveAt j = Leg.Departure firstLeg)
    ∧ last (Journey.Legs j) = Some lastLeg
    ∧ Journey.ArriveAt j = Leg.Arrival lastLeg
    ∧ Journey.Duration j = Time.Sub (Journey.ArriveAt j) (Journey.LeaveAt j)
    ∧ (minDuration ≤ Time.ns (Journey.ArriveAt j) - Time.ns (Journey.LeaveAt j) ≤ maxDuration →
       Journey.Duration j = Time.ns (Journey.ArriveAt j) - Time.ns (Journey.LeaveAt j)).
Proof.
  intros (aj & Haj & Hb)%elem_of_buildJourneys.
  destruct (buildJourney_Some _ _ _ Hb)
    as (first & rest & lastLeg & Hraw & Hlegs & Hlast & _ & Hstart & Harr & _ & _ & Hdur & _).
  exists aj, first, rest, lastLeg. split_and!; try done.
  - intros [[[line dep] arr] Hboard].
    rewrite Hlegs, (proj1 (legLoop_spec _)), Hraw. simpl. rewrite Hboard.
    eexists. split; [done|]. simpl.
    unfold boarded in Hboard. rewrite Hstart in Hboard.
    destruct (APILeg.Line first); [|done].
    destruct (parseTime (APILeg.Arrival first)); [|done]. by simplify_eq.
  - intros Hfit. by rewrite Hdur, Sub_exact.
Qed.


End BuilderClaims.

(* ===================================================================== *)
(** ** Filtering *)
(* ===================================================================== *)

Section Filtering.
Context {lib : GoLib}.

(** The filter test skips a journey exactly when one of its legs uses a mode
    mapped to [false]; with the empty mapping there is no such mode. *)
Lemma filteredOut_spec (filters : gmap string bool) (ls : list Leg.t) :
  filteredOut filters ls = true ↔
  Exists (λ leg, filters !! Leg.Product leg = Some false) ls.
Proof.
  unfold filteredOut. rewrite andb_true_iff, bool_decide_eq_true.
  assert (existsb (λ leg, bool_decide (filters !! Leg.Product leg = Some false)) ls = true
          ↔ Exists (λ leg, filters !! Leg.Product leg = Some false) ls) as ->.
  { induction ls as [|leg ls IH]; simpl.
    - split; [done|]. by intros ?%Exists_nil.
    - rewrite orb_true_iff, bool_decide_eq_true, IH, Exists_cons. done. }
  split; [by intros [_ ?]|]. intros Hex. split; [|done].
  apply Exists_exists in Hex as (leg & _ & Hleg).
  destruct (decide (size filters = 0%nat)) as [Hz|]; [|lia].
  apply map_size_empty_iff in Hz. by rewrite Hz, lookup_empty in Hleg.
Qed.

Lemma filteredOut_empty (ls : list Leg.t) : filteredOut ∅ ls = false.
Proof.
  apply not_true_is_false. rewrite filteredOut_spec, Exists_exists.
  intros (leg & _ & Hleg). by rewrite lookup_empty in Hleg.
Qed.

(** A raw journey under a mapping: what it is without filtering, unless one
    of its legs uses a disabled mode. *)
Lemma buildJourney_filters (filters : gmap string bool) (aj : APIJourney.t) (j : Journey.t) :
  buildJourney filters aj = Some j ↔
  buildJourney ∅ aj = Some j ∧ ¬ usesDisabled filters j.
Proof.
  unfold usesDisabled. split.
  - intros Hb. destruct (buildJourney_Some _ _ _ Hb) as (_ & _ & _ & _ & _ & _ & Hf & _).
    apply not_true_iff_false in Hf. rewrite filteredOut_spec in Hf. split; [|done].
    revert Hb. unfold buildJourney.
    destruct (APIJourney.Legs aj); [done|]. destruct (last _); [|done].
    rewrite filteredOut_empty. by destruct (filteredOut filters _).
  - intros [Hb Hf]. destruct (buildJourney_Some _ _ _ Hb) as (_ & _ & _ & _ & Hlegs & _).
    rewrite <- filteredOut_spec, Hlegs in Hf. apply not_true_is_false in Hf.
    revert Hb. unfold buildJourney.
    destruct (APIJourney.Legs aj); [done|]. destruct (last _); [|done].
    by rewrite filteredOut_empty, Hf.
Qed.

(** The journeys returned under a mapping are the journeys returned without
    filtering that use no disabled mode. *)
Lemma buildJourneys_filters (filters : gmap string bool) (resp : APIJourneysResponse.t)
    (j : Journey.t) :
  j ∈ buildJourneys filters resp ↔
  j ∈ buildJourneys ∅ resp ∧ ¬ usesDisabled filters j.
Proof.
  rewrite !elem_of_buildJourneys. split.
  - intros (aj & Haj & Hb). apply buildJourney_filters in Hb as [Hb Hok].
    split; [|exact Hok]. exists aj. split; assumption.
  - intros [(aj & Haj & Hb) Hok]. exists aj. split; [assumption|].
    apply buildJourney_filters. split; assumption.
Qed.

(** A mapping that disables no more modes keeps every journey. *)
Lemma buildJourneys_less_strict (strict loose : gmap string bool)
    (resp : APIJourneysResponse.t) (j : Journey.t) :
  (∀ mode, loose !! mode = Some false → strict !! mode = Some false) →
  j ∈ buildJourneys strict resp → j ∈ buildJourneys loose resp.
Proof.
  intros Hsub Hj. apply buildJourneys_filters in Hj as [Hj Hok].
  apply buildJourneys_filters. split; [assumption|].
  intros Hbad. apply Hok. unfold usesDisabled in *.
  eapply Exists_impl; [exact Hbad|]. intros leg. apply Hsub.
Qed.

(** C8. Filtering is monotonic.  When a mode mapped to [false] is remapped to
    [true], every journey returned under the stricter mapping is still
    returned; and under any mapping the journeys returned are those of the
    unfiltered list that have no leg whose mode is mapped to [false], so a
    journey with such a leg is removed. *)
Theorem filtering_monotone (filters : gmap string bool) (mode : string)
    (resp : APIJourneysResponse.t) :
  filters !! mode = Some false →
  (∀ j, j ∈ buildJourneys filters resp → j ∈ buildJourneys (<[mode := true]> filters) resp)
  ∧ (∀ j, j ∈ buildJourneys filters resp ↔
          j ∈ buildJourneys ∅ resp ∧ ¬ usesDisabled filters j)
  ∧ (∀ j, usesDisabled filters j → j ∉ buildJourneys filters resp).
Proof.
  intros Hmode. split_and!.
  - intros j. apply buildJourneys_less_strict. intros m.
    destruct (decide (mode = m)) as [->|Hne].
    + by rewrite lookup_insert_eq.
    + by rewrite lookup_insert_ne.
  - apply buildJourneys_filters.
  - intros j Hbad Hj. by apply buildJourneys_filters in Hj as [_ ?].
Qed.

End Filtering.

(* ===================================================================== *)
(** ** Novelty detection *)
(* ===================================================================== *)

Section Novelty.
Context {lib : GoLib}.

Lemma journeyID_set_IsNew (b : bool) (j : Journey.t) :
  journeyID (Journey.set_IsNew b j) = journeyID j.
Proof. done. Qed.

Lemma addIDs_dom (ids : list string) (m : gmap string bool) :
  dom (addIDs m ids) = dom m ∪ list_to_set ids.
Proof.
  revert m. induction ids as [|id ids IH]; intros m; simpl.
  - set_solver.
  - unfold addIDs in *. simpl. rewrite IH, dom_insert_L. set_solver.
Qed.

Lemma addIDs_idSet (ids : list string) (m : gmap string bool) :
  idSet m → idSet (addIDs m ids).
Proof.
  revert m. induction ids as [|id ids IH]; intros m Hm; simpl; [done|].
  apply IH. by apply map_Forall_insert_2.
Qed.

Lemma lookupID_idSet (m : gmap string bool) (id : string) :
  idSet m → lookupID m id = bool_decide (id ∈ dom m).
Proof.
  intros Hm. unfold lookupID. destruct (m !! id) as [b|] eqn:Hid; simpl.
  - rewrite (Hm id b Hid). symmetry. apply bool_decide_eq_true, elem_of_dom. eauto.
  - symmetry. apply bool_decide_eq_false. by rewrite not_elem_of_dom.
Qed.

Lemma existsb_Exists {A} (f : A → bool) (l : list A) :
  existsb f l = true ↔ Exists (λ x, f x = true) l.
Proof.
  induction l as [|x l IH]; simpl.
  - split; [done|]. by intros ?%Exists_nil.
  - by rewrite orb_true_iff, IH, Exists_cons.
Qed.

Lemma Forall2_Forall_r {A B} (P : A → B → Prop) (l : list A) (k : list B) :
  Forall2 P l k → Forall (λ y, ∃ x, x ∈ l ∧ P x y) k.
Proof.
  induction 1 as [|x y l k Hxy _ IH]; constructor.
  - exists x. split; [left|done].
  - eapply Forall_impl; [exact IH|]. intros y' (x' & ? & ?). exists x'. split; [by right|done].
Qed.

(** The loop never panics on journeys that have legs, marks each journey by
    looking its identity up in [prev], and collects the identities. *)
Lemma detectLoop_spec (prev : gmap string bool) (journeys : list Journey.t) :
  Forall (λ j, Journey.Legs j ≠ []) journeys →
  ∀ newIDs hasNew,
  ∃ marked,
    detectLoop prev journeys newIDs hasNew =
      Some (marked, addIDs newIDs (omap journeyID journeys),
            hasNew || existsb Journey.IsNew marked)
    ∧ Forall2 (λ j m, ∃ id, journeyID j = Some id
                            ∧ m = Journey.set_IsNew (negb (lookupID prev id)) j)
              journeys marked.
Proof.
  induction 1 as [|j journeys Hj _ IH]; intros newIDs hasNew; simpl.
  - exists []. split; [|constructor]. by rewrite orb_false_r.
  - destruct (journeyID j) as [id|] eqn:Hid.
    2: { unfold journeyID in Hid. by destruct (Journey.Legs j). }
    destruct (IH (<[id := true]> newIDs) (hasNew || negb (lookupID prev id)))
      as (marked & -> & Hmarked).
    eexists. split; [|constructor; [eauto|exact Hmarked]].
    simpl. by rewrite orb_assoc.
Qed.

(** C7. For a fresh list of journeys (each with a leg, as the builder makes
    them) and the identity set of the previous cycle: the detector returns the
    same journeys with [IsNew] set to [true] exactly for those whose identity
    (the formatted [LeaveAt], a dash, the first leg's line) is absent from the
    previous set, and [false] for all others; the set it returns holds
    exactly the identities of the fresh list, nothing of the previous set;
    [hasNew] tells whether some journey was marked; and run again on the same
    batch against the set it returned, it marks no journey as new and returns
    the same set. *)
Theorem novelty_detection (prev : gmap string bool) (journeys : list Journey.t) :
  idSet prev →
  Forall (λ j, Journey.Legs j ≠ []) journeys →
  ∃ marked newIDs hasNew,
    detectNew prev journeys = Some (marked, newIDs, hasNew)
    ∧ Forall2 (λ j m, ∃ id firstLeg,
                 head (Journey.Legs j) = Some firstLeg
                 ∧ id = time_Format_RFC3339 (Journey.LeaveAt j) +:+ "-" +:+ Leg.Line firstLeg
                 ∧ journeyID j = Some id
                 ∧ m = Journey.set_IsNew (bool_decide (id ∉ dom prev)) j)
              journeys marked
    ∧ idSet newIDs
    ∧ dom newIDs = identities journeys
    ∧ (hasNew = true ↔ Exists (λ m, Journey.IsNew m = true) marked)
    ∧ ∃ again,
        detectNew newIDs journeys = Some (again, newIDs, false)
        ∧ Forall (λ m, Journey.IsNew m = false) again.
Proof.
  intros Hprev Hlegs. unfold detectNew.
  destruct (detectLoop_spec prev journeys Hlegs ∅ false) as (marked & Hrun & Hmarked).
  set (newIDs := addIDs ∅ (omap journeyID journeys)) in *.
  assert (idSet newIDs) as Hids by (apply addIDs_idSet, map_Forall_empty).
  assert (dom newIDs = identities journeys) as Hdom.
  { unfold newIDs, identities. rewrite addIDs_dom. set_solver. }
  exists marked, newIDs, (existsb Journey.IsNew marked). split_and!; try done.
  - eapply Forall2_impl; [exact Hmarked|]. intros j m (id & Hid & ->).
    assert (∃ firstLeg, head (Journey.Legs j) = Some firstLeg
              ∧ id = time_Format_RFC3339 (Journey.LeaveAt j) +:+ "-" +:+ Leg.Line firstLeg)
      as (firstLeg & Hhead & Hfmt).
    { unfold journeyID in Hid. destruct (Journey.Legs j) as [|leg ?]; [done|].
      exists leg. split; [done|]. by injection Hid as <-. }
    exists id, firstLeg. split_and!; try done.
    rewrite (lookupID_idSet _ _ Hprev). f_equal. by rewrite bool_decide_not.
  - apply existsb_Exists.
  - destruct (detectLoop_spec newIDs journeys Hlegs ∅ false) as (again & Hrun' & Hagain).
    assert (Forall (λ m, Journey.IsNew m = false) again) as Hold.
    { eapply Forall_impl; [exact (Forall2_Forall_r _ _ _ Hagain)|].
      intros m (j & Hj & id & Hid & ->). simpl.
      rewrite (lookupID_idSet _ _ Hids), bool_decide_true; [done|].
      rewrite Hdom. unfold identities. apply elem_of_list_to_set, list_elem_of_omap.
      by exists j. }
    exists again. split; [|done]. rewrite Hrun'. do 2 f_equal. simpl.
    apply not_true_is_false. rewrite existsb_Exists, Exists_exists.
    intros (m & Hm & Hnew). rewrite list.Forall_forall in Hold.
    by rewrite (Hold m Hm) in Hnew.
Qed.

End Novelty.

(* ===================================================================== *)
(** ** Delay history *)
(* ===================================================================== *)

Section History.
Context {lib : GoLib}.

(** What [recordLeg] leaves under the leg's line when the leg is late. *)
Lemma recordLeg_late (now : Time.t) (hist : gmap string DelayHistory.t) (leg : Leg.t) :
  0 < Leg.DepDelay leg →
  ∃ h, recordLeg now hist leg !! Leg.Line leg = Some h
       ∧ DelayHistory.Updated h = now
       ∧ let old := from_option DelayHistory.Delays [] (hist !! Leg.Line leg) in
         let appended := (old ++ [Leg.DepDelay leg `quot` 60])%list in
         DelayHistory.Delays h = drop (length appended - 20) appended.
Proof.
  intros Hlate. unfold recordLeg. rewrite bool_decide_true by done.
  eexists. rewrite lookup_insert_eq. split; [done|]. split; [done|]. simpl.
  destruct (hist !! Leg.Line leg) as [h|]; simpl; [|done].
  case_bool_decide as Hlen; [done|].
  replace (length (DelayHistory.Delays h ++ [Leg.DepDelay leg `quot` 60]) - 20)%nat
    with 0%nat by lia. done.
Qed.

Lemma recordLeg_bounded (now : Time.t) (hist : gmap string DelayHistory.t) (leg : Leg.t) :
  historyBounded hist → historyBounded (recordLeg now hist leg).
Proof.
  intros Hb. unfold recordLeg. case_bool_decide; [|done].
  apply map_Forall_insert_2; [|done]. simpl.
  case_bool_decide; [|lia]. rewrite length_drop. lia.
Qed.

Lemma recordDelays_bounded (now : Time.t) (journeys : list Journey.t)
    (hist : gmap string DelayHistory.t) :
  historyBounded hist → historyBounded (recordDelays now hist journeys).
Proof.
  unfold recordDelays. revert hist.
  induction journeys as [|j journeys IH]; intros hist Hb; simpl; [done|].
  apply IH. generalize (Journey.Legs j). intros ls. revert hist Hb.
  induction ls as [|leg ls IHl]; intros hist Hb; simpl; [done|].
  by apply IHl, recordLeg_bounded.
Qed.

End History.

(* ===================================================================== *)
(** ** The refresh cycle *)
(* ===================================================================== *)

Section RefreshFacts.
Context {lib : GoLib}.

Lemma fetchJourneys_legs (net : Network) (originID destID : string)
    (filters : gmap string bool) (journeys : list Journey.t) :
  fetchJourneys net originID destID filters = Some journeys →
  Forall (λ j, Journey.Legs j ≠ []) journeys.
Proof.
  unfold fetchJourneys. destruct (net originID destID) as [resp|]; [|done].
  intros [= <-]. apply list.Forall_forall. intros j Hj.
  apply elem_of_buildJourneys in Hj as (aj & _ & Hb).
  by destruct (buildJourney_legs _ _ _ Hb) as [? _].
Qed.

(** A refresh never panics: the journeys it marks all have a first leg. *)
Lemma refresh_total (a : App.t) (net : Network) (now : Time.t) :
  is_Some (refresh a net now).
Proof.
  unfold refresh, refreshApply.
  destruct (fetchJourneys _ _ _ _) as [fetched|] eqn:Hfetch; [|done].
  apply fetchJourneys_legs in Hfetch.
  destruct (detectLoop_spec (App.prevJourneyIDs (refreshStart a)) fetched Hfetch ∅ false)
    as (marked & Hrun & _).
  unfold detectNew. by rewrite Hrun.
Qed.

Lemma refreshes_total (cycles : list (Network * Time.t)) (a : App.t) :
  is_Some (refreshes a cycles).
Proof.
  revert a. induction cycles as [|[net now] cycles IH]; intros a; simpl; [done|].
  destruct (refresh_total a net now) as [a' ->]. apply IH.
Qed.

(** The [filters] field is carried through a refresh and read nowhere. *)
Lemma refresh_set_filters (f : gmap string bool) (a : App.t) (net : Network) (now : Time.t) :
  refresh (App.set_filters f a) net now = App.set_filters f <$> refresh a net now.
Proof.
  unfold refresh, refreshApply. simpl.
  destruct (fetchJourneys _ _ _ _) as [fetched|]; [|done].
  destruct (detectNew _ _) as [[[marked newIDs] hasNew]|]; done.
Qed.

Lemma refresh_history_bounded (a a' : App.t) (net : Network) (now : Time.t) :
  historyBounded (App.delayHistory a) → refresh a net now = Some a' →
  historyBounded (App.delayHistory a').
Proof.
  unfold refresh, refreshApply. intros Hb.
  destruct (fetchJourneys _ _ _ _) as [fetched|]; [|by intros [= <-]].
  destruct (detectNew _ _) as [[[marked newIDs] hasNew]|]; [|done].
  intros [= <-]. simpl. by apply recordDelays_bounded.
Qed.

Lemma refreshes_history_bounded (cycles : list (Network * Time.t)) (a a' : App.t) :
  historyBounded (App.delayHistory a) → refreshes a cycles = Some a' →
  historyBounded (App.delayHistory a').
Proof.
  revert a. induction cycles as [|[net now] cycles IH]; intros a Hb; simpl.
  - by intros [= <-].
  - destruct (refresh a net now) as [a1|] eqn:Hr; [|done].
    apply IH. by eapply refresh_history_bounded.
Qed.

(** What a refresh publishes when the fetch succeeds: the journeys of the
    unfiltered reply as the detector marks them, and the detector's set. *)
Lemma refresh_success (a : App.t) (net : Network) (now : Time.t) (resp : APIJourneysResponse.t) :
  net (Station.ID (Config.LastOrigin (App.config a)))
      (Station.ID (Config.LastDest (App.config a))) = Some resp →
  ∃ marked newIDs hasNew a',
    detectNew (App.prevJourneyIDs a) (buildJourneys ∅ resp) = Some (marked, newIDs, hasNew)
    ∧ refresh a net now = Some a'
    ∧ App.journeys a' = marked
    ∧ App.prevJourneyIDs a' = newIDs
    ∧ App.newHighlight a' = (if hasNew then 30 else App.newHighlight a)
    ∧ App.delayHistory a' = recordDelays now (App.delayHistory a) marked
    ∧ App.isLoading a' = false
    ∧ App.selectedIdx a' = 0.
Proof.
  intros Hresp. destruct (refresh_total a net now) as [a' Ha']. revert Ha'.
  unfold refresh, fetchJourneys, refreshApply. rewrite Hresp. simpl.
  destruct (detectNew _ _) as [[[marked newIDs] hasNew]|]; [|done].
  intros [= <-]. by exists marked, newIDs, hasNew; eexists.
Qed.

(** The identity map of every state reached from start-up holds [true]
    entries only. *)
Lemma refresh_idSet (a a' : App.t) (net : Network) (now : Time.t) :
  idSet (App.prevJourneyIDs a) → refresh a net now = Some a' →
  idSet (App.prevJourneyIDs a').
Proof.
  unfold refresh, refreshApply. intros Hids.
  destruct (fetchJourneys _ _ _ _) as [fetched|] eqn:Hfetch; [|by intros [= <-]].
  apply fetchJourneys_legs in Hfetch.
  destruct (detectLoop_spec (App.prevJourneyIDs (refreshStart a)) fetched Hfetch ∅ false)
    as (marked & Hrun & _).
  unfold detectNew. rewrite Hrun. intros [= <-]. simpl.
  apply addIDs_idSet, map_Forall_empty.
Qed.

Lemma refreshes_idSet (config : Config.t) (cycles : list (Network * Time.t)) (a : App.t) :
  refreshes (NewApp config) cycles = Some a → idSet (App.prevJourneyIDs a).
Proof.
  assert (∀ a0, idSet (App.prevJourneyIDs a0) → refreshes a0 cycles = Some a →
                idSet (App.prevJourneyIDs a)) as Hgen.
  { induction cycles as [|[net now] cycles IH]; intros a0 Hids; simpl.
    - by intros [= <-].
    - destruct (refresh a0 net now) as [a1|] eqn:Hr; [|done].
      apply IH. by eapply refresh_idSet. }
  apply Hgen. simpl. apply map_Forall_empty.
Qed.

(** C1, amended. A refresh whose fetch returns an error clears the loading
    flag and replaces the published Journey list by the empty list (the
    presentation layer then shows no journeys), after a first failure as
    after any later one; the identity set of the previous cycle and the delay
    history are left untouched, and the selection returns to index 0. *)
Theorem refresh_failure_clears (a : App.t) (net : Network) (now : Time.t) :
  net (Station.ID (Config.LastOrigin (App.config a)))
      (Station.ID (Config.LastDest (App.config a))) = None →
  ∃ a', refresh a net now = Some a'
        ∧ App.journeys a' = []
        ∧ App.isLoading a' = false
        ∧ App.selectedIdx a' = 0
        ∧ App.prevJourneyIDs a' = App.prevJourneyIDs a
        ∧ App.delayHistory a' = App.delayHistory a
        ∧ ∀ net' now',
            net' (Station.ID (Config.LastOrigin (App.config a')))
                 (Station.ID (Config.LastDest (App.config a'))) = None →
            ∃ a'', refresh a' net' now' = Some a''
                   ∧ App.journeys a'' = [] ∧ App.isLoading a'' = false.
Proof.
  intros Hfail. unfold refresh, fetchJourneys. rewrite Hfail. simpl.
  eexists. split; [done|]. split_and!; try done.
  intros net' now' Hfail'. simpl in *. rewrite Hfail'. simpl. eauto.
Qed.

(** C6. Through every run of refresh cycles from start-up, every line's
    delay sample list holds at most 20 entries; and when a late leg is
    recorded for a line that already holds 20 samples, the list afterwards is
    the 19 newest of them followed by the new sample (whole minutes), the
    oldest having been dropped from the front. *)
Theorem delay_history_capped (config : Config.t) (cycles : list (Network * Time.t)) :
  (∃ a, refreshes (NewApp config) cycles = Some a ∧ historyBounded (App.delayHistory a))
  ∧ (∀ now (hist : gmap string DelayHistory.t) leg h,
       hist !! Leg.Line leg = Some h →
       length (DelayHistory.Delays h) = 20%nat →
       0 < Leg.DepDelay leg →
       ∃ h', recordLeg now hist leg !! Leg.Line leg = Some h'
             ∧ DelayHistory.Delays h' =
                 (drop 1 (DelayHistory.Delays h) ++ [Leg.DepDelay leg `quot` 60])%list
             ∧ length (DelayHistory.Delays h') = 20%nat).
Proof.
  split.
  - destruct (refreshes_total cycles (NewApp config)) as [a Ha]. exists a. split; [done|].
    eapply refreshes_history_bounded; [|exact Ha]. simpl. apply map_Forall_empty.
  - intros now hist leg h Hh Hlen Hlate.
    destruct (recordLeg_late now hist leg Hlate) as (h' & Hh' & _ & Hd).
    exists h'. split; [done|]. rewrite Hh in Hd. simpl in Hd.
    rewrite Hd, length_app, Hlen. simpl.
    rewrite drop_app_le by lia. split; [done|].
    rewrite length_app, length_drop, Hlen. simpl. lia.
Qed.

(** C10. A refresh fetches with the nil filter mapping, so the [filters]
    field of the application (every mode enabled at start-up) has no effect
    on what is published: a refresh always completes; from two states that
    differ only in [filters] it publishes the same list; that list is, the
    [IsNew] flags apart, the unfiltered list of the reply; and the field
    itself is left as it was. *)
Theorem refresh_ignores_filters (a : App.t) (f1 f2 : gmap string bool)
    (net : Network) (now : Time.t) :
  (∃ a1 a2,
      refresh (App.set_filters f1 a) net now = Some a1
      ∧ refresh (App.set_filters f2 a) net now = Some a2
      ∧ App.journeys a1 = App.journeys a2
      ∧ App.filters a1 = f1 ∧ App.filters a2 = f2
      ∧ ∀ resp, net (Station.ID (Config.LastOrigin (App.config a)))
                    (Station.ID (Config.LastDest (App.config a))) = Some resp →
                Journey.set_IsNew true <$> App.journeys a1 = buildJourneys ∅ resp)
  ∧ (∀ config mode,
       mode ∈ ["suburban"; "subway"; "tram"; "bus"; "ferry"; "regional"; "express"] →
       App.filters (NewApp config) !! mode = Some true).
Proof.
  split.
  - rewrite !refresh_set_filters.
    destruct (refresh_total a net now) as [a' Ha']. rewrite Ha'. simpl.
    eexists _, _. split_and!; try done.
    intros resp Hresp. revert Ha'. unfold refresh, fetchJourneys, refreshApply.
    rewrite Hresp.
    assert (Forall (λ j, Journey.Legs j ≠ [] ∧ Journey.IsNew j = true)
                   (buildJourneys ∅ resp)) as Hbuilt.
    { apply list.Forall_forall. intros j Hj.
      apply elem_of_buildJourneys in Hj as (aj & _ & Hb).
      by apply (buildJourney_legs _ _ _ Hb). }
    destruct (detectLoop_spec (App.prevJourneyIDs (refreshStart a)) (buildJourneys ∅ resp)
                (Forall_impl _ _ _ Hbuilt (λ _ Hj, proj1 Hj)) ∅ false)
      as (marked & Hrun & Hmarked).
    unfold detectNew. rewrite Hrun. intros [= <-]. simpl.
    clear Hrun. induction Hmarked as [|j m js ms (id & _ & ->) _ IH]; [done|].
    apply Forall_cons in Hbuilt as [[_ Hnew] Hbuilt].
    rewrite fmap_cons. f_equal; [|by apply IH].
    destruct j. simpl in *. by rewrite Hnew.
  - intros config mode Hmode. simpl.
    repeat (apply elem_of_cons in Hmode as [->|Hmode]; [done|]).
    by apply elem_of_nil in Hmode.
Qed.

End RefreshFacts.

(* ===================================================================== *)
(** ** The code on concrete inputs *)
(* ===================================================================== *)

(** Two journeys leaving at 08:05 (no wait) and 08:00 (2 minutes of wait):
    the earlier departure comes first. *)
Example order_by_departure :
  (λ j, (Ref.Format (Journey.LeaveAt j), Journey.TotalWait j)) <$>
    buildJourneys (lib := refLib) ∅
      (Ex.response
         [[Ex.ride "S3" "suburban" "2024-03-01T08:05:00Z" "2024-03-01T08:30:00Z"];
          [Ex.ride "S3" "suburban" "2024-03-01T08:00:00Z" "2024-03-01T08:10:00Z";
           Ex.ride "U8" "subway" "2024-03-01T08:12:00Z" "2024-03-01T08:30:00Z"]])
  = [("2024-03-01T08:00:00Z", 120 * 10 ^ 9); ("2024-03-01T08:05:00Z", 0)].
Proof. vm_compute. reflexivity. Qed.

(** Two journeys leaving at the same instant: the one that waits less comes
    first. *)
Example order_by_wait :
  (λ j, (Ref.Format (Journey.LeaveAt j), Journey.TotalWait j)) <$>
    buildJourneys (lib := refLib) ∅
      (Ex.response
         [[Ex.ride "S3" "suburban" "2024-03-01T08:00:00Z" "2024-03-01T08:10:00Z";
           Ex.ride "U8" "subway" "2024-03-01T08:13:00Z" "2024-03-01T08:30:00Z"];
          [Ex.ride "S5" "suburban" "2024-03-01T09:00:00+01:00" "2024-03-01T09:30:00+01:00"]])
  = [("2024-03-01T09:00:00+01:00", 0); ("2024-03-01T08:00:00Z", 180 * 10 ^ 9)].
Proof. vm_compute. reflexivity. Qed.

(** A leg whose arrival does not parse is dropped; a journey left without a
    leg is dropped. *)
Example unparseable_arrival :
  (λ j, Leg.Line <$> Journey.Legs j) <$>
    buildJourneys (lib := refLib) ∅
      (Ex.response
         [[Ex.ride "S3" "suburban" "2024-03-01T08:00:00Z" "2024-03-01T08:10:00Z";
           Ex.ride "U8" "subway" "2024-03-01T08:13:00Z" "soon";
           Ex.ride "M10" "tram" "2024-03-01T08:40:00Z" "2024-03-01T08:50:00Z"];
          [Ex.ride "S5" "suburban" "2024-03-01T09:00:00Z" ""]])
  = [["S3"; "M10"]].
Proof. vm_compute. reflexivity. Qed.

(** Counterexample to C1 as the specification words it: a successful
    refresh publishes one journey; when the next refresh fails, the
    published list is empty, not the list published before. *)
Lemma failed_refresh_empties_list :
  length ∘ App.journeys <$>
    refreshes (lib := refLib) (NewApp Ex.config) [(Ex.answers Ex.morning, Ex.clock 1)]
    = Some 1%nat
  ∧ App.journeys <$>
      refreshes (lib := refLib) (NewApp Ex.config)
        [(Ex.answers Ex.morning, Ex.clock 1); (Ex.fails, Ex.clock 2)]
    = Some [].
Proof. split; vm_compute; reflexivity. Qed.

(** Counterexample to C3 as the specification words it: a raw leg that
    arrives before it departs is built into a journey whose [ArriveAt] is
    earlier than its [LeaveAt]. *)
Lemma arrival_before_departure_kept :
  ∃ j,
    buildJourneys (lib := refLib) ∅ Ex.backwards = [j]
    ∧ Ref.Format (Journey.LeaveAt j) = "2024-03-01T10:00:00+01:00"
    ∧ Ref.Format (Journey.ArriveAt j) = "2024-03-01T09:00:00+01:00"
    ∧ Time.ns (Journey.ArriveAt j) < Time.ns (Journey.LeaveAt j)
    ∧ ¬ Time.le (Journey.LeaveAt j) (Journey.ArriveAt j).
Proof.
  eexists. split; [vm_compute; reflexivity|]. simpl.
  split; [reflexivity|]. split; [reflexivity|]. unfold Time.le. simpl. lia.
Qed.

(** Counterexample to C4 as the specification words it: when the raw
    journey starts with a walk, [LeaveAt] is the start of the walk, not the
    departure of the first leg. *)
Lemma walk_first_leave_time :
  ∃ j firstLeg,
    buildJourneys (lib := refLib) ∅ Ex.walkFirst = [j]
    ∧ head (Journey.Legs j) = Some firstLeg
    ∧ Ref.Format (Journey.LeaveAt j) = "2024-03-01T08:00:00+01:00"
    ∧ Ref.Format (Leg.Departure firstLeg) = "2024-03-01T08:10:00+01:00"
    ∧ Journey.LeaveAt j ≠ Leg.Departure firstLeg.
Proof.
  eexists _, _. split; [vm_compute; reflexivity|]. simpl.
  split; [reflexivity|]. split; [reflexivity|]. split; [reflexivity|]. discriminate.
Qed.

(** Counterexample to C5 as the specification words it: a keyword alone
    does not classify.  A remark that is not about occupancy has the keyword
    "low" and assigns no level; a remark about occupancy has none of the three
    keywords and assigns "medium", for "moderate"; and the first remark with a
    keyword does not win when it is not about occupancy. *)
Lemma occupancy_not_by_keywords_alone :
  hasKeyword (lib := refLib) Ex.lowFloor "low"
  ∧ parseOccupancy (lib := refLib) [Ex.lowFloor] = ""
  ∧ ¬ hasKeyword (lib := refLib) Ex.moderate "low"
  ∧ ¬ hasKeyword (lib := refLib) Ex.moderate "medium"
  ∧ ¬ hasKeyword (lib := refLib) Ex.moderate "high"
  ∧ parseOccupancy (lib := refLib) [Ex.moderate] = "medium"
  ∧ hasKeyword (lib := refLib) Ex.crowded "high"
  ∧ parseOccupancy (lib := refLib) [Ex.lowFloor; Ex.crowded] = "high".
Proof.
  unfold hasKeyword. split_and!; vm_compute; (reflexivity || discriminate).
Qed.


(** Waits of centuries: each is the largest Duration, and their sum in
    Duration arithmetic is not their integer sum. *)
Example total_wait_wraps :
  (λ j, (Leg.WaitBefore <$> Journey.Legs j, Journey.TotalWait j)) <$>
    buildJourneys (lib := refLib) ∅ Ex.farApart
  = [([0; 2 ^ 63 - 1; 2 ^ 63 - 1], -2)].
Proof. vm_compute. reflexivity. Qed.

(** The raw legs of [Ex.change] are in chronological order. *)
Lemma change_arrivalsAfterStart :
  Forall (arrivalsAfterStart (lib := refLib)) (APIJourneysResponse.Journeys Ex.change).
Proof.
  constructor; [|constructor].
  intros first rest start [= <- <-] Hstart.
  vm_compute in Hstart. injection Hstart as <-.
  repeat constructor; intros arr Harr; vm_compute in Harr; injection Harr as <-;
    unfold Time.le; simpl; lia.
Defined.

(** The journey built from [Ex.change]. *)
Lemma change_built :
  ∃ j, buildJourneys (lib := refLib) ∅ Ex.change = [j].
Proof. eexists. vm_compute. reflexivity. Defined.

(** C1 at a start-up state and a network that fails. *)
Lemma refresh_failure_clears_witness :
  ∃ a', refresh (lib := refLib) (NewApp Ex.config) Ex.fails (Ex.clock 1) = Some a'
        ∧ App.journeys a' = []
        ∧ App.isLoading a' = false.
Proof.
  destruct (refresh_failure_clears (lib := refLib) (NewApp Ex.config) Ex.fails (Ex.clock 1)
              eq_refl) as (a' & Hr & Hj & Hl & _).
  by exists a'.
Defined.

(** C3 at [Ex.mixed]: the journey of [Ex.change], beside a raw journey that
    arrives before it departs. *)
Lemma journey_has_legs_and_times_witness :
  ∃ j, j ∈ buildJourneys (lib := refLib) ∅ Ex.mixed
       ∧ Journey.Legs j ≠ []
       ∧ Time.le (Journey.LeaveAt j) (Journey.ArriveAt j).
Proof.
  destruct change_built as [j Hj].
  assert (j ∈ buildJourneys (lib := refLib) ∅ Ex.change) as Hin by (rewrite Hj; left).
  apply elem_of_buildJourneys in Hin as (aj & Haj & Hb).
  assert (j ∈ buildJourneys (lib := refLib) ∅ Ex.mixed) as Hmixed.
  { apply elem_of_buildJourneys. exists aj. split; [|exact Hb].
    apply elem_of_app. right. exact Haj. }
  destruct (journey_has_legs_and_times (lib := refLib) ∅ Ex.mixed j Hmixed)
    as (Hlegs & _ & _ & _ & Hle).
  exists j. split; [assumption|]. split; [assumption|]. apply (Hle aj Hb).
  pose proof change_arrivalsAfterStart as Hall. rewrite list.Forall_forall in Hall.
  apply Hall, Haj.
Defined.

(** C4 at [Ex.change], whose first raw leg is boarded. *)
Lemma journey_times_witness :
  ∃ j firstLeg lastLeg,
    j ∈ buildJourneys (lib := refLib) ∅ Ex.change
    ∧ head (Journey.Legs j) = Some firstLeg
    ∧ Journey.LeaveAt j = Leg.Departure firstLeg
    ∧ last (Journey.Legs j) = Some lastLeg
    ∧ Journey.ArriveAt j = Leg.Arrival lastLeg
    ∧ Journey.Duration j = Time.Sub (Journey.ArriveAt j) (Journey.LeaveAt j).
Proof.
  destruct change_built as [j Hj].
  assert (j ∈ buildJourneys (lib := refLib) ∅ Ex.change) as Hin by (rewrite Hj; left).
  destruct (journey_times (lib := refLib) ∅ Ex.change j Hin)
    as (aj & first & rest & lastLeg & Haj & Hraw & _ & Hfirst & Hlast & Harr & Hdur & _).
  apply list_elem_of_singleton in Haj as ->. injection Hraw as <- <-.
  destruct Hfirst as (firstLeg & Hhead & Hleave); [vm_compute; eexists; reflexivity|].
  exists j, firstLeg, lastLeg. repeat (split; [assumption|]). assumption.
Defined.


(** C8 at [Ex.change] and a mapping that disables trams. *)
Lemma filtering_monotone_witness :
  (∀ j, j ∈ buildJourneys (lib := refLib) {[ "tram" := false ]} Ex.change →
        j ∈ buildJourneys (lib := refLib) (<[ "tram" := true ]> {[ "tram" := false ]}) Ex.change)
  ∧ (∀ j, usesDisabled {[ "tram" := false ]} j →
          j ∉ buildJourneys (lib := refLib) {[ "tram" := false ]} Ex.change).
Proof.
  destruct (filtering_monotone (lib := refLib) {[ "tram" := false ]} "tram" Ex.change)
    as (Hmono & _ & Hgone); [reflexivity|].
  split; assumption.
Defined.

(** C7 at start-up (empty previous set) and the journey of [Ex.change]. *)
Lemma novelty_detection_witness :
  ∃ marked newIDs hasNew again,
    detectNew (lib := refLib) ∅ (buildJourneys (lib := refLib) ∅ Ex.change)
      = Some (marked, newIDs, hasNew)
    ∧ dom newIDs = identities (lib := refLib) (buildJourneys (lib := refLib) ∅ Ex.change)
    ∧ detectNew (lib := refLib) newIDs (buildJourneys (lib := refLib) ∅ Ex.change)
      = Some (again, newIDs, false)
    ∧ Forall (λ m, Journey.IsNew m = false) again.
Proof.
  destruct (novelty_detection (lib := refLib) ∅ (buildJourneys (lib := refLib) ∅ Ex.change))
    as (marked & newIDs & hasNew & Hrun & _ & _ & Hdom & _ & again & Hagain & Hold).
  - apply map_Forall_empty.
  - destruct change_built as [j Hj]. rewrite Hj. constructor; [|constructor].
    vm_compute in Hj. injection Hj as <-. discriminate.
  - exists marked, newIDs, hasNew, again. repeat (split; [assumption|]). assumption.
Defined.

(** C6 at a line that holds 20 samples: the 21st evicts the oldest. *)
Lemma delay_history_capped_witness :
  ∃ h, recordLeg (Ex.clock 5) Ex.fullHistory Ex.lateLeg !! "M10" = Some h
       ∧ DelayHistory.Delays h = (seqZ 2 19 ++ [3])%list
       ∧ length (DelayHistory.Delays h) = 20%nat.
Proof.
  destruct (proj2 (delay_history_capped (lib := refLib) Ex.config [])
              (Ex.clock 5) Ex.fullHistory Ex.lateLeg
              (DelayHistory.mk "M10" (seqZ 1 20) (Ex.clock 0)))
    as (h & Hh & Hd & Hl); [reflexivity | reflexivity | reflexivity |].
  exists h. repeat (split; [assumption|]). assumption.
Defined.

(** C5 at a list whose first remark is not about occupancy. *)
Lemma parseOccupancy_first_match_witness :
  parseOccupancy (lib := refLib)
    [APIRemark.mk "hint" "bf" "Low-floor vehicle";
     APIRemark.mk "hint" "text.occup.2" "Occupancy: MEDIUM to high"] = "medium".
Proof.
  apply (proj1 (parseOccupancy_first_match (lib := refLib) _)
           [APIRemark.mk "hint" "bf" "Low-floor vehicle"]
           (APIRemark.mk "hint" "text.occup.2" "Occupancy: MEDIUM to high") []).
  - reflexivity.
  - constructor; [|constructor].
    intros lvl Hlvl. destruct Hlvl as [Ho|Ho|Ho]; destruct Ho as [Ho|Ho];
      vm_compute in Ho; discriminate Ho.
  - apply assigns_medium.
    + left. reflexivity.
    + unfold hasKeyword. vm_compute. discriminate.
    + left. reflexivity.
Defined.

(** C10 at a refresh from start-up with all modes disabled or enabled. *)
Lemma refresh_ignores_filters_witness :
  ∃ a1 a2,
    refresh (lib := refLib) (App.set_filters {[ "tram" := false ]} (NewApp Ex.config))
            (Ex.answers Ex.change) (Ex.clock 1) = Some a1
    ∧ refresh (lib := refLib) (App.set_filters ∅ (NewApp Ex.config))
              (Ex.answers Ex.change) (Ex.clock 1) = Some a2
    ∧ App.journeys a1 = App.journeys a2
    ∧ Journey.set_IsNew true <$> App.journeys a1 = buildJourneys (lib := refLib) ∅ Ex.change.
Proof.
  destruct (proj1 (refresh_ignores_filters (lib := refLib) (NewApp Ex.config)
                     {[ "tram" := false ]} ∅ (Ex.answers Ex.change) (Ex.clock 1)))
    as (a1 & a2 & H1 & H2 & Heq & _ & _ & Hlist).
  exists a1, a2. repeat (split; [assumption|]). apply Hlist. reflexivity.
Defined.

(* ===================================================================== *)
(** ** Further properties: parsing and building *)
(* ===================================================================== *)

Section BuilderMore.
Context {lib : GoLib}.

Lemma string_app_cons (c : ascii) (s t : string) : String c s +:+ t = String c (s +:+ t).
Proof. reflexivity. Qed.

Lemma string_app_assoc (s t u : string) : (s +:+ t) +:+ u = s +:+ (t +:+ u).
Proof. induction s as [|c s IH]; [done|]. by rewrite !string_app_cons, IH. Qed.

Lemma string_length_app (s t : string) :
  String.length (s +:+ t) = (String.length s + String.length t)%nat.
Proof. induction s as [|c s IH]; [done|]. rewrite string_app_cons. simpl. by rewrite IH. Qed.

Lemma strings_ReplaceAll_app (s t : string) (old : ascii) (new : string) :
  strings_ReplaceAll (s +:+ t) old new
  = strings_ReplaceAll s old new +:+ strings_ReplaceAll t old new.
Proof.
  induction s as [|c s IH]; [done|]. rewrite string_app_cons. simpl.
  case_decide.
  - by rewrite string_app_assoc, IH.
  - by rewrite string_app_cons, IH.
Qed.

Lemma append_empty_iff (s t : string) : s +:+ t = "" ↔ s = "" ∧ t = "".
Proof. destruct s; simpl; [naive_solver|]. split; [done|]. by intros [? _]. Qed.

(** X1. [parseTime] reads the UTC marker [Z] as the offset [+00:00]: two
    timestamps that differ only in writing the one for the other are parsed
    alike, whatever [time.Parse] does. *)
Theorem parseTime_utc_marker (before after : string) :
  parseTime (before +:+ "Z" +:+ after) = parseTime (before +:+ "+00:00" +:+ after).
Proof.
  unfold parseTime.
  rewrite !strings_ReplaceAll_app.
  change (strings_ReplaceAll "Z" "Z"%char "+00:00") with "+00:00".
  change (strings_ReplaceAll "+00:00" "Z"%char "+00:00") with "+00:00".
  repeat case_decide; try done.
  - apply append_empty_iff in H as [_ H]. by apply append_empty_iff in H as [H _].
  - apply append_empty_iff in H0 as [_ H0]. by apply append_empty_iff in H0 as [H0 _].
Qed.

(** X2. [parseServiceStatus] returns, in their original order, the texts of
    the remarks of type "warning" or "status" whose text is not empty, and
    nothing else. *)
Theorem parseServiceStatus_spec (remarks : list APIRemark.t) :
  parseServiceStatus remarks
  = APIRemark.Text <$>
      filter (λ r, (APIRemark.Type_ r = "warning" ∨ APIRemark.Type_ r = "status")
                   ∧ APIRemark.Text r ≠ "") remarks.
Proof.
  induction remarks as [|r remarks IH]; [done|]. simpl.
  rewrite filter_cons, IH.
  destruct (decide _) as [[Ht Hx]|Hno].
  - rewrite (bool_decide_false _ Hx). simpl.
    destruct Ht as [->| ->]; simpl; [done|].
    by destruct (bool_decide ("status" = "warning")).
  - destruct (bool_decide (APIRemark.Text r = "")) eqn:Hx; simpl.
    + by rewrite andb_false_r.
    + apply bool_decide_eq_false in Hx. rewrite andb_true_r.
      destruct (_ || _) eqn:Ht; [|done].
      apply orb_true_iff in Ht as [Ht%bool_decide_eq_true|Ht%bool_decide_eq_true];
        destruct Hno; auto.
Qed.

(** The legs the loop builds are the boarded raw legs, one for one and in
    their order. *)
Lemma legsSpec_boarded (before raw : list APILeg.t) :
  Forall2 (λ leg al, ∃ line dep arr,
             boarded al = Some (line, dep, arr)
             ∧ leg = mkLeg al line dep arr (Leg.WaitBefore leg))
          (legsSpec before raw) (filter (λ al, is_Some (boarded al)) raw).
Proof.
  revert before. induction raw as [|al raw IH]; intros before; simpl; [constructor|].
  rewrite filter_cons. destruct (boarded al) as [[[line dep] arr]|] eqn:Hb.
  - rewrite decide_True by eauto. constructor; [|apply IH].
    exists line, dep, arr. by rewrite Hb.
  - rewrite decide_False by (by intros [? ?]). apply IH.
Qed.

(** X3. The legs of a returned journey are the raw legs of one raw journey
    that have a line and whose two timestamps parse, one [Leg] for each and
    in the raw order; raw legs without a line or with an unparseable time
    contribute none.  Each [Leg] carries the line's name and product, the
    trip id and the parsed times; the realised platform, or the planned one
    when the realised one is empty; the delays, 0 when absent; and the cycle
    in whole minutes. *)
Theorem journey_legs_in_raw_order (filters : gmap string bool)
    (resp : APIJourneysResponse.t) (j : Journey.t) :
  j ∈ buildJourneys filters resp →
  ∃ aj,
    aj ∈ APIJourneysResponse.Journeys resp
    ∧ Forall2
        (λ leg al, ∃ line,
           APILeg.Line al = Some line
           ∧ Leg.Line leg = APILine.Name line
           ∧ Leg.Product leg = APILine.Product line
           ∧ Leg.TripID leg = APILeg.TripId al
           ∧ parseTime (APILeg.Departure al) = Some (Leg.Departure leg)
           ∧ parseTime (APILeg.Arrival al) = Some (Leg.Arrival leg)
           ∧ Leg.DepPlatform leg =
               (if decide (APILeg.DeparturePlatform al = "")
                then APILeg.PlannedDeparturePlatform al else APILeg.DeparturePlatform al)
           ∧ Leg.ArrPlatform leg =
               (if decide (APILeg.ArrivalPlatform al = "")
                then APILeg.PlannedArrivalPlatform al else APILeg.ArrivalPlatform al)
           ∧ Leg.DepDelay leg = default 0 (APILeg.DepartureDelay al)
           ∧ Leg.ArrDelay leg = default 0 (APILeg.ArrivalDelay al)
           ∧ Leg.Cycle leg = from_option (λ m, m `quot` 60) 0 (APILeg.CycleMin al))
        (Journey.Legs j)
        (filter (λ al, is_Some (boarded al)) (APIJourney.Legs aj)).
Proof.
  intros (aj & Haj & Hb)%elem_of_buildJourneys. exists aj. split; [done|].
  destruct (buildJourney_Some _ _ _ Hb) as (_ & _ & _ & _ & -> & _).
  rewrite (proj1 (legLoop_spec _)).
  eapply Forall2_impl; [apply legsSpec_boarded|].
  intros leg al (line & dep & arr & Hboard & ->). exists line.
  unfold boarded in Hboard.
  destruct (APILeg.Line al) as [line'|]; [|done].
  destruct (parseTime (APILeg.Departure al)) as [dep'|]; [|done].
  destruct (parseTime (APILeg.Arrival al)) as [arr'|]; [|done].
  by simplify_eq.
Qed.

(** X4. When a raw journey is kept: it has a raw leg, the departure of its
    first raw leg parses and is not the zero time, at least one of its raw
    legs is boarded, the arrival of the last boarded one is not the zero
    time, and no boarded leg uses a mode mapped to [false].  In particular a
    raw journey whose first raw leg has an unparseable departure is dropped
    whole, whatever its other legs. *)
Theorem buildJourney_kept_iff (filters : gmap string bool) (aj : APIJourney.t) :
  is_Some (buildJourney filters aj) ↔
  ∃ first rest start lastLeg,
    APIJourney.Legs aj = first :: rest
    ∧ parseTime (APILeg.Departure first) = Some start
    ∧ Time.IsZero start = false
    ∧ last (legsSpec [] (APIJourney.Legs aj)) = Some lastLeg
    ∧ Time.IsZero (Leg.Arrival lastLeg) = false
    ∧ ¬ Exists (λ leg, filters !! Leg.Product leg = Some false)
              (legsSpec [] (APIJourney.Legs aj)).
Proof.
  split.
  - intros [j Hb].
    destruct (buildJourney_Some _ _ _ Hb)
      as (first & rest & lastLeg & Hraw & Hlegs & Hlast & Hf & Hstart & Harr & Hz1 & Hz2 & _).
    rewrite Hlegs, (proj1 (legLoop_spec _)) in Hlast, Hf.
    exists first, rest, (Journey.LeaveAt j), lastLeg. split_and!; try done.
    + by rewrite <- Harr.
    + rewrite <- filteredOut_spec. by rewrite Hf.
  - intros (first & rest & start & lastLeg & Hraw & Hstart & Hz1 & Hlast & Hz2 & Hf).
    rewrite <- filteredOut_spec in Hf. apply not_true_is_false in Hf.
    unfold buildJourney. rewrite Hraw, <- Hraw, (proj1 (legLoop_spec _)), Hlast, Hf, Hstart.
    by rewrite Hz1, Hz2.
Qed.

(** A raw journey that starts with a walk whose departure is missing is
    dropped, although its one boarded leg is in order. *)
Example first_departure_missing :
  buildJourneys (lib := refLib) ∅
    (Ex.response [[Ex.walk "" "2024-03-01T08:05:00Z";
                   Ex.ride "S3" "suburban" "2024-03-01T08:10:00Z" "2024-03-01T08:30:00Z"]])
  = [].
Proof. vm_compute. reflexivity. Qed.

(** X5. A mapping with no [false] entry filters nothing: the builder returns
    the very list it returns for the nil mapping. *)
Theorem filters_all_enabled (filters : gmap string bool) (resp : APIJourneysResponse.t) :
  map_Forall (λ _ enabled, enabled = true) filters →
  buildJourneys filters resp = buildJourneys ∅ resp.
Proof.
  intros Hall. unfold buildJourneys. f_equal.
  assert (∀ ls, filteredOut filters ls = false) as Hnone.
  { intros ls. apply not_true_is_false. rewrite filteredOut_spec, Exists_exists.
    intros (leg & _ & Hleg). by specialize (Hall _ _ Hleg). }
  apply list_omap_ext, Forall_Forall2_diag, list.Forall_forall. intros aj _.
  unfold buildJourney.
  destruct (APIJourney.Legs aj); [done|]. destruct (last _); [|done].
  by rewrite filteredOut_empty, Hnone.
Qed.

End BuilderMore.

(* ===================================================================== *)
(** ** Further properties: the refresh cycle *)
(* ===================================================================== *)

Section RefreshMore.
Context {lib : GoLib}.

Lemma buildJourneys_in_order (filters : gmap string bool) (resp : APIJourneysResponse.t) :
  StronglySorted journeyOrder (buildJourneys filters resp).
Proof.
  unfold buildJourneys.
  generalize (sort_Slice_sorted _ journeyLess journeyLess_asym journeyLess_negtrans
                (omap (buildJourney filters) (APIJourneysResponse.Journeys resp))).
  unfold sorted_by. induction 1 as [|j l _ IH Hj]; constructor; [done|].
  eapply Forall_impl; [exact Hj|]. intros b. apply journeyLess_order.
Qed.

(** Setting flags leaves a sorted list sorted. *)
Lemma marked_in_order (journeys marked : list Journey.t) :
  Forall2 (λ j m, ∃ b, m = Journey.set_IsNew b j) journeys marked →
  StronglySorted journeyOrder journeys → StronglySorted journeyOrder marked.
Proof.
  intros Hm Hs. revert marked Hm.
  induction Hs as [|j js _ IH Hj]; intros marked Hm.
  - apply Forall2_nil_inv_l in Hm as ->. constructor.
  - apply Forall2_cons_inv_l in Hm as (m & ms & [b ->] & Hms & ->).
    constructor; [by apply IH|].
    clear IH. induction Hms as [|j' m' js' ms' [b' ->] _ IH']; [constructor|].
    apply Forall_cons in Hj as [Hj Hjs]. constructor; [exact Hj|by apply IH'].
Qed.

Lemma detectLoop_marks (prev : gmap string bool) (journeys : list Journey.t)
    (r : list Journey.t * gmap string bool * bool) :
  detectNew prev journeys = Some r →
  Forall2 (λ j m, ∃ b, m = Journey.set_IsNew b j) journeys r.1.1.
Proof.
  unfold detectNew. generalize (∅ : gmap string bool) false. revert r.
  induction journeys as [|j journeys IH]; intros r newIDs hasNew; simpl.
  - intros [= <-]. constructor.
  - destruct (journeyID j) as [id|]; [|done].
    destruct (detectLoop _ _ _ _) as [[[rest ids] hn]|] eqn:Hrest; [|done].
    intros [= <-]. simpl. constructor; [eauto|]. by apply (IH _ _ _ Hrest).
Qed.

(** X6. Whatever the fetch returns, a refresh completes and the list it
    publishes is sorted ascending by [LeaveAt], ties by ascending
    [TotalWait]: marking the journeys new or not does not disturb the order
    the builder gave them. *)
Theorem refresh_publishes_sorted (a : App.t) (net : Network) (now : Time.t) :
  ∃ a', refresh a net now = Some a' ∧ StronglySorted journeyOrder (App.journeys a').
Proof.
  destruct (refresh_total a net now) as [a' Ha']. exists a'. split; [done|].
  revert Ha'. unfold refresh, fetchJourneys, refreshApply.
  destruct (net _ _) as [resp|]; [|intros [= <-]; constructor].
  destruct (detectNew _ _) as [[[marked newIDs] hasNew]|] eqn:Hdet; [|done].
  intros [= <-]. simpl.
  apply detectLoop_marks in Hdet. simpl in Hdet.
  eapply marked_in_order; [exact Hdet|apply buildJourneys_in_order].
Qed.

Lemma refresh_config (a a' : App.t) (net : Network) (now : Time.t) :
  refresh a net now = Some a' → App.config a' = App.config a.
Proof.
  unfold refresh, refreshApply.
  destruct (fetchJourneys _ _ _ _) as [fetched|]; [|by intros [= <-]].
  destruct (detectNew _ _) as [[[marked newIDs] hasNew]|]; [|done].
  by intros [= <-].
Qed.

(** Against the empty set every journey is new, and the builder's flags
    stand. *)
Lemma detectNew_empty (journeys : list Journey.t) :
  Forall (λ j, Journey.Legs j ≠ [] ∧ Journey.IsNew j = true) journeys →
  detectNew ∅ journeys
  = Some (journeys, addIDs ∅ (omap journeyID journeys),
          match journeys with [] => false | _ => true end).
Proof.
  intros Hj.
  destruct (detectLoop_spec ∅ journeys (Forall_impl _ _ _ Hj (λ _ H, proj1 H)) ∅ false)
    as (marked & Hrun & Hmarked).
  assert (marked = journeys) as ->.
  { clear Hrun. induction Hmarked as [|j m js ms (id & _ & ->) _ IH]; [done|].
    apply Forall_cons in Hj as [[_ Hnew] Hj]. f_equal; [|by apply IH].
    unfold lookupID. rewrite lookup_empty. simpl. destruct j. simpl in *. by rewrite Hnew. }
  unfold detectNew. rewrite Hrun. do 2 f_equal. simpl.
  destruct Hj as [|j js [_ Hnew] _]; [done|]. simpl. by rewrite Hnew.
Qed.

Lemma buildJourneys_fresh (filters : gmap string bool) (resp : APIJourneysResponse.t) :
  Forall (λ j, Journey.Legs j ≠ [] ∧ Journey.IsNew j = true) (buildJourneys filters resp).
Proof.
  apply list.Forall_forall. intros j (aj & _ & Hb)%elem_of_buildJourneys.
  by apply (buildJourney_legs _ _ _ Hb).
Qed.

(** X7. The first refresh after start-up, when its fetch succeeds, publishes
    the builder's list as it is, every journey flagged new, and arms the
    highlight window (30 frames) unless the list is empty. *)
Theorem first_refresh_all_new (config : Config.t) (net : Network) (now : Time.t)
    (resp : APIJourneysResponse.t) :
  net (Station.ID (Config.LastOrigin config)) (Station.ID (Config.LastDest config)) = Some resp →
  ∃ a', refresh (NewApp config) net now = Some a'
        ∧ App.journeys a' = buildJourneys ∅ resp
        ∧ Forall (λ j, Journey.IsNew j = true) (App.journeys a')
        ∧ App.newHighlight a' = match buildJourneys ∅ resp with [] => 0 | _ => 30 end.
Proof.
  intros Hresp.
  destruct (refresh_success (NewApp config) net now resp Hresp)
    as (marked & newIDs & hasNew & a' & Hdet & Hr & Hj & _ & Hh & _).
  simpl in Hdet. rewrite detectNew_empty in Hdet by apply buildJourneys_fresh.
  injection Hdet as <- <- <-.
  exists a'. split_and!; [done|done| |].
  - rewrite Hj. eapply Forall_impl; [apply buildJourneys_fresh|]. by intros j [_ ?].
  - rewrite Hh. simpl. by destruct (buildJourneys ∅ resp).
Qed.

(** Against the set a batch left, the same batch has nothing new. *)
Lemma detectNew_again (prev : gmap string bool) (journeys : list Journey.t)
    (marked : list Journey.t) (newIDs : gmap string bool) (hasNew : bool) :
  Forall (λ j, Journey.Legs j ≠ []) journeys →
  detectNew prev journeys = Some (marked, newIDs, hasNew) →
  ∃ again, detectNew newIDs journeys = Some (again, newIDs, false)
           ∧ Forall (λ m, Journey.IsNew m = false) again.
Proof.
  intros Hlegs Hdet.
  destruct (detectLoop_spec prev journeys Hlegs ∅ false) as (marked' & Hrun & _).
  unfold detectNew in Hdet. rewrite Hrun in Hdet. injection Hdet as _ <- _.
  set (newIDs := addIDs ∅ (omap journeyID journeys)).
  assert (idSet newIDs) as Hids by (apply addIDs_idSet, map_Forall_empty).
  destruct (detectLoop_spec newIDs journeys Hlegs ∅ false) as (again & Hrun' & Hagain).
  assert (Forall (λ m, Journey.IsNew m = false) again) as Hold.
  { eapply Forall_impl; [exact (Forall2_Forall_r _ _ _ Hagain)|].
    intros m (j & Hj & id & Hid & ->). simpl.
    rewrite (lookupID_idSet _ _ Hids), bool_decide_true; [done|].
    unfold newIDs. rewrite addIDs_dom. apply elem_of_union_r, elem_of_list_to_set.
    apply list_elem_of_omap. by exists j. }
  exists again. split; [|done]. unfold detectNew. rewrite Hrun'. do 2 f_equal. simpl.
  apply not_true_is_false. rewrite existsb_Exists, Exists_exists.
  intros (m & Hm & Hnew). rewrite list.Forall_forall in Hold.
  by rewrite (Hold m Hm) in Hnew.
Qed.

(** X8. A failed refresh does not disturb the comparison baseline: when a
    batch is published, the next fetch fails, and the fetch after that
    returns the same batch, no journey of the third list is flagged new, the
    highlight window is not re-armed, and the identity set is the one the
    first refresh left. *)
Theorem same_batch_after_failure (a : App.t) (net1 net2 net3 : Network)
    (t1 t2 t3 : Time.t) (resp : APIJourneysResponse.t) :
  let originID := Station.ID (Config.LastOrigin (App.config a)) in
  let destID := Station.ID (Config.LastDest (App.config a)) in
  net1 originID destID = Some resp →
  net2 originID destID = None →
  net3 originID destID = Some resp →
  ∃ a1 a3,
    refresh a net1 t1 = Some a1
    ∧ refreshes a [(net1, t1); (net2, t2); (net3, t3)] = Some a3
    ∧ length (App.journeys a3) = length (App.journeys a1)
    ∧ Forall (λ j, Journey.IsNew j = false) (App.journeys a3)
    ∧ App.newHighlight a3 = App.newHighlight a1
    ∧ App.prevJourneyIDs a3 = App.prevJourneyIDs a1.
Proof.
  intros originID destID H1 H2 H3.
  destruct (refresh_success a net1 t1 resp H1)
    as (marked & newIDs & hasNew & a1 & Hdet1 & Hr1 & Hj1 & Hp1 & _).
  pose proof (refresh_config _ _ _ _ Hr1) as Hc1.
  assert (∃ a2, refresh a1 net2 t2 = Some a2 ∧ App.config a2 = App.config a
                ∧ App.prevJourneyIDs a2 = newIDs
                ∧ App.newHighlight a2 = App.newHighlight a1) as (a2 & Hr2 & Hc2 & Hp2 & Hh2).
  { unfold refresh, fetchJourneys. rewrite Hc1. fold originID destID. rewrite H2. simpl.
    eexists. split; [done|]. simpl. by rewrite Hc1, Hp1. }
  assert (net3 (Station.ID (Config.LastOrigin (App.config a2)))
               (Station.ID (Config.LastDest (App.config a2))) = Some resp) as H3'
    by (by rewrite Hc2).
  destruct (refresh_success a2 net3 t3 resp H3')
    as (marked3 & newIDs3 & hasNew3 & a3 & Hdet3 & Hr3 & Hj3 & Hp3 & Hh3 & _).
  assert (Forall (λ j, Journey.Legs j ≠ []) (buildJourneys ∅ resp)) as Hlegs.
  { eapply Forall_impl; [apply buildJourneys_fresh|]. by intros j [? _]. }
  destruct (detectNew_again _ _ _ _ _ Hlegs Hdet1) as (again & Hagain & Hold).
  rewrite Hp2, Hagain in Hdet3. injection Hdet3 as <- <- <-.
  exists a1, a3. split; [done|]. simpl. rewrite Hr1, Hr2, Hr3.
  split_and!; try done.
  - rewrite Hj3, Hj1.
    apply detectLoop_marks in Hagain, Hdet1. simpl in *.
    by rewrite <- (Forall2_length _ _ _ Hagain), <- (Forall2_length _ _ _ Hdet1).
  - by rewrite Hj3.
  - by rewrite Hh3.
  - by rewrite Hp3, Hp1.
Qed.

End RefreshMore.

(* ===================================================================== *)
(** ** Further properties: the delay history *)
(* ===================================================================== *)

Section HistoryMore.
Context {lib : GoLib}.

Lemma lastN_length {A} (n : nat) (l : list A) : length (lastN n l) = (length l `min` n)%nat.
Proof. unfold lastN. rewrite length_drop. lia. Qed.

Lemma lastN_all {A} (n : nat) (l : list A) : (length l ≤ n)%nat → lastN n l = l.
Proof. intros Hl. unfold lastN. by replace (length l - n)%nat with 0%nat by lia. Qed.

(** Trimming early does not change what is kept in the end. *)
Lemma lastN_app_lastN {A} (n : nat) (l k : list A) :
  lastN n (lastN n l ++ k) = lastN n (l ++ k).
Proof.
  unfold lastN at 1 3. rewrite !length_app, lastN_length.
  destruct (decide (n ≤ length k)%nat) as [Hk|Hk].
  - rewrite !drop_app_ge by (rewrite ?lastN_length; lia).
    rewrite lastN_length. f_equal. lia.
  - rewrite !drop_app_le by (rewrite ?lastN_length; lia).
    f_equal. unfold lastN. rewrite drop_drop. f_equal. lia.
Qed.

(** What one leg does to the entry of a line. *)
Lemma recordLeg_lookup (now : Time.t) (hist : gmap string DelayHistory.t) (leg : Leg.t)
    (line : string) :
  recordLeg now hist leg !! line =
  if decide (0 < Leg.DepDelay leg ∧ Leg.Line leg = line) then
    Some (DelayHistory.mk
            (from_option DelayHistory.Line line (hist !! line))
            (lastN 20 (from_option DelayHistory.Delays [] (hist !! line)
                       ++ [Leg.DepDelay leg `quot` 60]))
            now)
  else hist !! line.
Proof.
  unfold recordLeg. destruct (decide _) as [[Hlate <-]|Hno].
  - rewrite bool_decide_true by done. rewrite lookup_insert_eq. f_equal.
    destruct (hist !! Leg.Line leg) as [h|]; simpl; f_equal.
    + case_bool_decide; [done|]. by rewrite lastN_all by lia.
  - case_bool_decide as Hlate; [|done].
    rewrite lookup_insert_ne; [done|]. intros Heq. by apply Hno.
Qed.

Lemma recordLegs_lookup (now : Time.t) (ls : list Leg.t) (hist : gmap string DelayHistory.t)
    (line : string) :
  foldl (recordLeg now) hist ls !! line =
  match (λ leg, Leg.DepDelay leg `quot` 60) <$>
          filter (λ leg, 0 < Leg.DepDelay leg ∧ Leg.Line leg = line) ls with
  | [] => hist !! line
  | samples =>
      Some (DelayHistory.mk
              (from_option DelayHistory.Line line (hist !! line))
              (lastN 20 (from_option DelayHistory.Delays [] (hist !! line) ++ samples))
              now)
  end.
Proof.
  revert hist. induction ls as [|leg ls IH]; intros hist; [done|].
  simpl. rewrite IH, filter_cons, recordLeg_lookup.
  destruct (decide _) as [Hleg|Hleg]; [|done].
  rewrite fmap_cons. simpl.
  destruct (_ <$> filter _ ls) as [|x rest]; [done|].
  f_equal. f_equal.
  by rewrite lastN_app_lastN, <- (assoc_L (++)).
Qed.

Lemma recordDelays_flat (now : Time.t) (journeys : list Journey.t)
    (hist : gmap string DelayHistory.t) :
  recordDelays now hist journeys = foldl (recordLeg now) hist (journeys ≫= Journey.Legs).
Proof.
  unfold recordDelays. revert hist.
  induction journeys as [|j journeys IH]; intros hist; [done|].
  rewrite bind_cons, foldl_app. simpl. by rewrite IH.
Qed.

Lemma lateSamples_marked (line : string) (journeys marked : list Journey.t) :
  Forall2 (λ j m, ∃ b, m = Journey.set_IsNew b j) journeys marked →
  lateSamples line marked = lateSamples line journeys.
Proof.
  intros Hm. unfold lateSamples. do 2 f_equal.
  induction Hm as [|j m js ms [b ->] _ IH]; [done|]. by rewrite !bind_cons, IH.
Qed.

(** X9. After a refresh whose fetch succeeds, the delay history of every
    line is: untouched, when the batch has no late leg of that line;
    otherwise an entry under the line's name whose samples are the last 20 of
    the list made of its former samples followed by the batch's samples for
    the line (the departure delays of its late legs, in whole minutes, in the
    order of the published list and of each journey's legs).  Nothing is said
    of the entry's [Updated] stamp, for which the code reads the clock anew at
    every late leg. *)
Theorem refresh_delay_history (a : App.t) (net : Network) (now : Time.t)
    (resp : APIJourneysResponse.t) :
  net (Station.ID (Config.LastOrigin (App.config a)))
      (Station.ID (Config.LastDest (App.config a))) = Some resp →
  ∃ a', refresh a net now = Some a'
        ∧ ∀ line,
            match lateSamples line (buildJourneys ∅ resp) with
            | [] => App.delayHistory a' !! line = App.delayHistory a !! line
            | samples =>
                ∃ h, App.delayHistory a' !! line = Some h
                     ∧ DelayHistory.Line h
                       = from_option DelayHistory.Line line (App.delayHistory a !! line)
                     ∧ DelayHistory.Delays h
                       = lastN 20 (from_option DelayHistory.Delays []
                                     (App.delayHistory a !! line) ++ samples)
            end.
Proof.
  intros Hresp.
  destruct (refresh_success a net now resp Hresp)
    as (marked & newIDs & hasNew & a' & Hdet & Hr & _ & _ & _ & Hh & _).
  exists a'. split; [done|]. intros line.
  rewrite Hh, recordDelays_flat, recordLegs_lookup.
  apply detectLoop_marks in Hdet. simpl in Hdet.
  fold (lateSamples line marked). rewrite (lateSamples_marked line _ _ Hdet).
  destruct (lateSamples line (buildJourneys ∅ resp)) as [|sample samples]; [done|].
  eexists. split; [done|]. done.
Qed.

Lemma recordLeg_wellFormed (now : Time.t) (hist : gmap string DelayHistory.t) (leg : Leg.t) :
  historyWellFormed hist → historyWellFormed (recordLeg now hist leg).
Proof.
  intros Hw line h. rewrite recordLeg_lookup.
  destruct (decide _) as [[Hlate <-]|_]; [|apply Hw].
  intros [= <-]. simpl.
  assert (Forall (λ d, 0 ≤ d)
            (from_option DelayHistory.Delays [] (hist !! Leg.Line leg)
             ++ [Leg.DepDelay leg `quot` 60])) as Hpos.
  { apply Forall_app. split.
    - destruct (hist !! Leg.Line leg) as [h|] eqn:Hh; simpl; [|constructor].
      by destruct (Hw _ _ Hh) as (_ & _ & ?).
    - apply Forall_singleton. apply Z.quot_pos; lia. }
  split_and!.
  - destruct (hist !! Leg.Line leg) as [h|] eqn:Hh; simpl; [|done].
    by destruct (Hw _ _ Hh) as (? & _).
  - intros Hnil. apply (f_equal length) in Hnil.
    rewrite lastN_length, length_app in Hnil. simpl in Hnil. lia.
  - unfold lastN. by apply Forall_drop.
Qed.

Lemma refresh_wellFormed (a a' : App.t) (net : Network) (now : Time.t) :
  historyWellFormed (App.delayHistory a) → refresh a net now = Some a' →
  historyWellFormed (App.delayHistory a').
Proof.
  unfold refresh, refreshApply. intros Hw.
  destruct (fetchJourneys _ _ _ _) as [fetched|]; [|by intros [= <-]].
  destruct (detectNew _ _) as [[[marked newIDs] hasNew]|]; [|done].
  intros [= <-]. simpl. rewrite recordDelays_flat.
  generalize (marked ≫= Journey.Legs). intros ls. revert Hw.
  generalize (App.delayHistory a).
  induction ls as [|leg ls IH]; intros hist Hw; simpl; [done|].
  by apply IH, recordLeg_wellFormed.
Qed.

(** X10. Through every run of refresh cycles from start-up, every entry of
    the delay history is filed under the name of its own line, holds at
    least one sample, and holds no negative sample. *)
Theorem delay_history_well_formed (config : Config.t) (cycles : list (Network * Time.t)) :
  ∃ a, refreshes (NewApp config) cycles = Some a ∧ historyWellFormed (App.delayHistory a).
Proof.
  destruct (refreshes_total cycles (NewApp config)) as [a Ha]. exists a. split; [done|].
  assert (∀ a0, historyWellFormed (App.delayHistory a0) → refreshes a0 cycles = Some a →
                historyWellFormed (App.delayHistory a)) as Hgen.
  { clear Ha. induction cycles as [|[net now] cycles IH]; intros a0 Hw; simpl.
    - by intros [= <-].
    - destruct (refresh a0 net now) as [a1|] eqn:Hr; [|done].
      apply IH. by eapply refresh_wellFormed. }
  apply (Hgen _ (map_Forall_empty _) Ha).
Qed.

End HistoryMore.

(* ===================================================================== *)
(** ** Further properties: keys, favourites and the animation clock *)
(* ===================================================================== *)

Section UIMore.
Context {lib : GoLib}.

Lemma refresh_selectedIdx (a a' : App.t) (net : Network) (now : Time.t) :
  refresh a net now = Some a' →
  App.selectedIdx a' = 0 ∧ App.animFrame a' = App.animFrame a.
Proof.
  unfold refresh, refreshApply.
  destruct (fetchJourneys _ _ _ _) as [fetched|]; [|by intros [= <-]].
  destruct (detectNew _ _) as [[[marked newIDs] hasNew]|]; [|done].
  by intros [= <-].
Qed.

(** No event panics. *)
Lemma step_total (ui : UI.t) (ev : event) : is_Some (step ui ev).
Proof.
  destruct ev; simpl; try done.
  destruct (refresh_total (UI.app ui) net now) as [a' ->]. done.
Qed.

Lemma run_total (events : list event) (ui : UI.t) : is_Some (run ui events).
Proof.
  revert ui. induction events as [|ev events IH]; intros ui; simpl; [done|].
  destruct (step_total ui ev) as [ui' ->]. apply IH.
Qed.

(** An invariant of every step is an invariant of every run. *)
Lemma run_invariant (P : UI.t → Prop) :
  (∀ ui ev ui', P ui → step ui ev = Some ui' → P ui') →
  ∀ events ui ui', P ui → run ui events = Some ui' → P ui'.
Proof.
  intros Hstep. induction events as [|ev events IH]; intros ui ui' HP; simpl.
  - by intros [= <-].
  - destruct (step ui ev) as [ui1|] eqn:Hs; [|done]. apply IH. by eapply Hstep.
Qed.

Lemma step_selectionValid (ui : UI.t) (ev : event) (ui' : UI.t) :
  selectionValid (UI.app ui) → step ui ev = Some ui' → selectionValid (UI.app ui').
Proof.
  unfold selectionValid. intros [Hpos Hsel].
  destruct ev; simpl; try (intros [= <-]).
  - unfold keyUp. case_bool_decide; simpl; [lia|done].
  - unfold keyDown. case_bool_decide; simpl; [lia|done].
  - done.
  - unfold addFavorite. by destruct (existsb _ _).
  - unfold loadFavorite. destruct (_ && _); [|done]. by destruct (_ !! _).
  - unfold deleteFavorite. by destruct (_ && _).
  - done.
  - unfold selectStation. by case_bool_decide.
  - unfold tick. destruct (UI.showSplash ui); [by case_bool_decide|].
    simpl. case_bool_decide; [|done]. by rewrite length_fmap.
  - destruct (refresh _ _ _) as [a'|] eqn:Hr; [|done]. intros [= <-]. simpl.
    apply refresh_selectedIdx in Hr as [-> _]. lia.
Qed.

(** X11. Whatever keys are pressed, favourites chosen, ticks counted and
    refreshes completed after start-up, the selection stays inside the
    journey list (or at 0 when the list is empty); so key Enter never indexes
    out of range: it shows the selected journey when there is one and
    nothing when the list is empty. *)
Theorem selection_stays_valid (config : Config.t) (events : list event) :
  ∃ ui, run (NewUI config) events = Some ui
        ∧ selectionValid (UI.app ui)
        ∧ match App.journeys (UI.app ui) with
          | [] => keyEnter ui = Some None
          | _ => ∃ j, keyEnter ui = Some (Some j)
                      ∧ App.journeys (UI.app ui) !! Z.to_nat (App.selectedIdx (UI.app ui))
                        = Some j
          end.
Proof.
  destruct (run_total events (NewUI config)) as [ui Hrun]. exists ui. split; [done|].
  assert (selectionValid (UI.app ui)) as Hsel.
  { eapply (run_invariant (λ ui, selectionValid (UI.app ui)));
      [apply step_selectionValid| |exact Hrun].
    unfold selectionValid. simpl. lia. }
  split; [done|]. destruct Hsel as [Hpos Hsel]. unfold keyEnter.
  destruct (App.journeys (UI.app ui)) as [|j0 js] eqn:Hjs; [done|].
  rewrite bool_decide_true by (simpl; lia).
  assert (App.selectedIdx (UI.app ui) < Z.of_nat (length (j0 :: js))) as Hlt
    by (destruct Hsel; simpl in *; lia).
  rewrite bool_decide_false by lia. rewrite bool_decide_false by lia.
  destruct (lookup_lt_is_Some_2 (j0 :: js) (Z.to_nat (App.selectedIdx (UI.app ui))))
    as [j Hj]; [lia|].
  exists j. by rewrite Hj.
Qed.

(** From start-up the frame counter counts the ticks, and the splash screen
    is up for the first 20 of them. *)
Lemma run_clock (events : list event) (ui ui' : UI.t) (k : nat) :
  App.animFrame (UI.app ui) = Z.of_nat k →
  UI.showSplash ui = bool_decide (k < 20)%nat →
  ((k < 20)%nat → UI.splashFrame ui = 20 - Z.of_nat k) →
  Z.of_nat (k + tickCount events) ≤ maxDuration →
  run ui events = Some ui' →
  App.animFrame (UI.app ui') = Z.of_nat (k + tickCount events)
  ∧ UI.showSplash ui' = bool_decide (k + tickCount events < 20)%nat
  ∧ ((k + tickCount events < 20)%nat →
     UI.splashFrame ui' = 20 - Z.of_nat (k + tickCount events)).
Proof.
  revert ui k. induction events as [|ev events IH]; intros ui k Hk Hs Hf Hmax; simpl.
  - intros [= <-]. by rewrite Nat.add_0_r.
  - destruct (step ui ev) as [ui1|] eqn:Hstep; [|done].
    assert (ev ≠ EvTick →
            App.animFrame (UI.app ui1) = Z.of_nat k
            ∧ UI.showSplash ui1 = UI.showSplash ui
            ∧ UI.splashFrame ui1 = UI.splashFrame ui) as Hother.
    { intros Hev. revert Hstep.
      destruct ev; simpl; try done;
        try (intros [= <-];
             unfold keyUp, keyDown, keyReverse, addFavorite, loadFavorite, deleteFavorite,
               showSearch, selectStation;
             repeat case_match; simpl; by split_and!).
      destruct (refresh _ _ _) as [a'|] eqn:Hr; [|done]. intros [= <-]. simpl.
      apply refresh_selectedIdx in Hr as [_ ->]. by split_and!. }
    destruct ev; simpl in Hmax |- *;
      try (destruct Hother as (Hk1 & Hs1 & Hf1); [done|];
           apply (IH ui1 k); [done|by rewrite Hs1|by rewrite Hf1|done]).
    replace (k + S (tickCount events))%nat with (S k + tickCount events)%nat in * by lia.
    injection Hstep as <-. unfold tick.
    assert (wrap64 (App.animFrame (UI.app ui) + 1) = Z.of_nat (S k)) as Hwrap.
    { rewrite Hk. rewrite wrap64_small; [lia|]. int64_lia. }
    rewrite Hs. case_bool_decide as Hsplash.
    + rewrite (Hf Hsplash).
      assert (wrap64 (20 - Z.of_nat k - 1) = 19 - Z.of_nat k) as ->
        by (rewrite wrap64_small; [lia|int64_lia]).
      case_bool_decide as Hend; apply IH; simpl; try done.
      * symmetry. apply bool_decide_eq_false. lia.
      * lia.
      * symmetry. apply bool_decide_eq_true. lia.
      * lia.
    + apply IH; simpl; try done.
      * symmetry. apply bool_decide_eq_false. lia.
      * lia.
Qed.

(** X12. The refresh of start-up is queued by the 20th tick of the animation
    clock and by no other tick, whatever else happens in between; the splash
    screen is up exactly until then. *)
Theorem startup_refresh_at_tick_20 (config : Config.t) (events : list event) :
  Z.of_nat (tickCount events) < maxDuration →
  ∃ ui, run (NewUI config) events = Some ui
        ∧ UI.showSplash ui = bool_decide (tickCount events < 20)%nat
        ∧ (tick ui).2 = bool_decide (tickCount events = 19%nat).
Proof.
  intros Hmax. destruct (run_total events (NewUI config)) as [ui Hrun].
  exists ui. split; [done|].
  destruct (run_clock events (NewUI config) ui 0) as (Hk & Hs & Hf); try done.
  { change (0 + tickCount events)%nat with (tickCount events). lia. }
  simpl in *. split; [done|]. unfold tick. rewrite Hs.
  case_bool_decide as Hsplash;
    [|simpl; symmetry; apply bool_decide_eq_false; lia].
  rewrite (Hf Hsplash).
  rewrite wrap64_small by int64_lia.
  case_bool_decide; simpl; symmetry;
    [apply bool_decide_eq_true|apply bool_decide_eq_false]; lia.
Qed.

(** X13. Once 50 ticks have been counted since start-up, every tick clears
    the [IsNew] flag of every published journey, so that after it the journey
    list shows no "new" star, however recently a refresh armed the highlight
    window; before that, a tick leaves the flags as they are. *)
Theorem new_flags_cleared_after_50_ticks (config : Config.t) (events : list event) :
  Z.of_nat (tickCount events) < maxDuration →
  ∃ ui, run (NewUI config) events = Some ui
        ∧ ((tickCount events < 50)%nat →
           App.journeys (UI.app (tick ui).1) = App.journeys (UI.app ui))
        ∧ ((50 ≤ tickCount events)%nat →
           App.journeys (UI.app (tick ui).1)
             = Journey.set_IsNew false <$> App.journeys (UI.app ui)
           ∧ Forall (λ j, newIndicator (UI.app (tick ui).1) j = false)
                    (App.journeys (UI.app (tick ui).1))).
Proof.
  intros Hmax. destruct (run_total events (NewUI config)) as [ui Hrun].
  exists ui. split; [done|].
  destruct (run_clock events (NewUI config) ui 0) as (Hk & Hs & Hf); try done.
  { change (0 + tickCount events)%nat with (tickCount events). lia. }
  simpl in *. unfold tick. rewrite Hs, Hk.
  rewrite (wrap64_small (Z.of_nat (tickCount events) + 1)) by int64_lia.
  split.
  - intros Hlt. case_bool_decide; [by case_bool_decide|]. simpl.
    by rewrite bool_decide_false by lia.
  - intros Hge. rewrite bool_decide_false by lia. simpl.
    rewrite bool_decide_true by lia. split; [done|].
    apply Forall_fmap, Forall_true. done.
Qed.

Lemma tick_after_splash (ui : UI.t) :
  UI.showSplash ui = false →
  UI.showSplash (tick ui).1 = false
  ∧ App.newHighlight (UI.app (tick ui).1)
    = (if decide (0 < App.newHighlight (UI.app ui))
       then App.newHighlight (UI.app ui) - 1 else App.newHighlight (UI.app ui))
  ∧ UI.statusMsgFrame (tick ui).1
    = (if decide (0 < UI.statusMsgFrame ui)
       then UI.statusMsgFrame ui - 1 else UI.statusMsgFrame ui).
Proof.
  intros Hs. unfold tick. rewrite Hs. simpl.
  split; [done|]. split; by case_bool_decide; case_decide.
Qed.

(** X14. Once the splash screen is down, the two countdowns of the display
    (the highlight window of new journeys, the status message) lose one per
    tick until they reach 0 and stay there: armed with 30, each is over after
    exactly 30 ticks. *)
Theorem countdowns_decay (ui : UI.t) (n : nat) :
  UI.showSplash ui = false →
  0 ≤ App.newHighlight (UI.app ui) →
  0 ≤ UI.statusMsgFrame ui →
  App.newHighlight (UI.app (ticks n ui)) = 0 `max` (App.newHighlight (UI.app ui) - Z.of_nat n)
  ∧ UI.statusMsgFrame (ticks n ui) = 0 `max` (UI.statusMsgFrame ui - Z.of_nat n).
Proof.
  revert ui. induction n as [|n IH]; intros ui Hs Hh Hm.
  - simpl. lia.
  - destruct (tick_after_splash ui Hs) as (Hs' & Hh' & Hm').
    change (ticks (S n) ui) with (ticks n (tick ui).1).
    destruct (decide (0 < App.newHighlight (UI.app ui)));
      destruct (decide (0 < UI.statusMsgFrame ui));
      (destruct (IH (tick ui).1 Hs') as [-> ->]; [lia|lia|]; rewrite Hh', Hm'; lia).
Qed.

(** The test of [addFavorite]: the current route is already a favourite. *)
Lemma existsb_sameRoute (c : Config.t) (routes : list (Station.t * Station.t)) :
  existsb (sameRoute c) routes = true ↔
  routeKey (Config.LastOrigin c, Config.LastDest c) ∈ routeKey <$> routes.
Proof.
  induction routes as [|fav routes IH].
  - simpl. split; [done|]. by intros ?%elem_of_nil.
  - rewrite fmap_cons, elem_of_cons. cbn [existsb]. rewrite orb_true_iff, IH.
    unfold sameRoute, routeKey. rewrite andb_true_iff, !bool_decide_eq_true. simpl.
    split; (intros [Hfav|?]; [left|by right]).
    + destruct Hfav as [-> ->]. done.
    + by injection Hfav as -> ->.
Qed.

Lemma step_routesDistinct (ui : UI.t) (ev : event) (ui' : UI.t) :
  routesDistinct (App.config (UI.app ui)) → step ui ev = Some ui' →
  routesDistinct (App.config (UI.app ui')).
Proof.
  unfold routesDistinct. intros Hd.
  destruct ev; simpl; try (intros [= <-]); try done.
  - unfold keyUp. by case_bool_decide.
  - unfold keyDown. by case_bool_decide.
  - unfold addFavorite. destruct (existsb _ _) eqn:Hex; [done|]. simpl.
    rewrite fmap_app. apply NoDup_app. split_and!; [done| |apply NoDup_singleton].
    intros key Hkey ->%list_elem_of_singleton.
    apply existsb_sameRoute in Hkey. congruence.
  - unfold loadFavorite. destruct (_ && _); [|done]. by destruct (_ !! _).
  - unfold deleteFavorite. destruct (_ && _); [|done]. simpl.
    rewrite Nat.add_1_r, <- delete_take_drop.
    eapply sublist_NoDup; [exact Hd|]. apply fmap_sublist, sublist_delete.
  - unfold selectStation. by case_bool_decide.
  - unfold tick. destruct (UI.showSplash ui); [by case_bool_decide|done].
  - destruct (refresh _ _ _) as [a'|] eqn:Hr; [|done]. intros [= <-]. simpl.
    by rewrite (refresh_config _ _ _ _ Hr).
Qed.

(** X15. When the favourites loaded at start-up join no pair of stations
    twice, they never do afterwards, whatever is added, deleted, loaded or
    otherwise done: [addFavorite] refuses a route whose two station ids are
    already in the list. *)
Theorem favourites_stay_distinct (config : Config.t) (events : list event) :
  routesDistinct config →
  ∃ ui, run (NewUI config) events = Some ui ∧ routesDistinct (App.config (UI.app ui)).
Proof.
  intros Hd. destruct (run_total events (NewUI config)) as [ui Hrun].
  exists ui. split; [done|].
  by eapply (run_invariant (λ ui, routesDistinct (App.config (UI.app ui))));
    [apply step_routesDistinct| |exact Hrun].
Qed.

Lemma addFavorite_old (ui : UI.t) :
  existsb (sameRoute (App.config (UI.app ui))) (Config.Routes (App.config (UI.app ui))) = true →
  addFavorite ui
  = (UI.mk (UI.app ui) (UI.routeAnimFrame ui) "Already in favorites" 30
           (UI.showSplash ui) (UI.splashFrame ui) (UI.searchTarget ui), []).
Proof. intros Hex. unfold addFavorite. by rewrite Hex. Qed.

Lemma addFavorite_new (ui : UI.t) :
  existsb (sameRoute (App.config (UI.app ui))) (Config.Routes (App.config (UI.app ui))) = false →
  addFavorite ui
  = (UI.mk (Upd.config (withCurrentRoute (App.config (UI.app ui))) (UI.app ui))
           (UI.routeAnimFrame ui) "★ Added to favorites!" 30
           (UI.showSplash ui) (UI.splashFrame ui) (UI.searchTarget ui),
     [DoSave (withCurrentRoute (App.config (UI.app ui)))]).
Proof. intros Hex. unfold addFavorite. by rewrite Hex. Qed.

(** X16. After [addFavorite] the current route is among the favourites; a
    second [addFavorite] changes no favourite, writes no configuration file
    and only reports "Already in favorites" for 30 frames. *)
Theorem addFavorite_twice (ui : UI.t) :
  let c := App.config (UI.app ui) in
  let once := addFavorite ui in
  let twice := addFavorite once.1 in
  routeKey (Config.LastOrigin c, Config.LastDest c)
    ∈ routeKey <$> Config.Routes (App.config (UI.app once.1))
  ∧ App.config (UI.app twice.1) = App.config (UI.app once.1)
  ∧ twice.2 = []
  ∧ UI.statusMsg twice.1 = "Already in favorites"
  ∧ UI.statusMsgFrame twice.1 = 30.
Proof.
  intros c once twice. subst once twice c.
  destruct (existsb (sameRoute (App.config (UI.app ui)))
              (Config.Routes (App.config (UI.app ui)))) eqn:Hex.
  - rewrite (addFavorite_old ui Hex). cbn [fst snd].
    rewrite addFavorite_old by exact Hex. cbn [fst snd UI.app UI.statusMsg UI.statusMsgFrame].
    split_and!; try reflexivity. by apply existsb_sameRoute.
  - rewrite (addFavorite_new ui Hex). cbn [fst snd].
    assert (routeKey (Config.LastOrigin (App.config (UI.app ui)),
                      Config.LastDest (App.config (UI.app ui)))
              ∈ routeKey <$> Config.Routes (withCurrentRoute (App.config (UI.app ui)))) as Hin.
    { unfold withCurrentRoute. simpl. rewrite fmap_app. apply elem_of_app. right. left. }
    assert (existsb (sameRoute (withCurrentRoute (App.config (UI.app ui))))
              (Config.Routes (withCurrentRoute (App.config (UI.app ui)))) = true) as Hex'.
    { by apply existsb_sameRoute. }
    rewrite addFavorite_old by exact Hex'.
    cbn [fst snd UI.app UI.statusMsg UI.statusMsgFrame].
    split_and!; try reflexivity. exact Hin.
Qed.

(** X17. A favourite just added is the last of the list, and loading it
    later, from whatever route is then current, restores the two stations it
    was added with, writes that configuration and asks for a refresh; an
    index outside the list loads nothing, writes nothing and asks for
    nothing. *)
Theorem load_added_favorite (ui later : UI.t) (idx : Z) :
  let c := App.config (UI.app ui) in
  existsb (sameRoute c) (Config.Routes c) = false →
  Config.Routes (App.config (UI.app later))
    = Config.Routes (App.config (UI.app (addFavorite ui).1)) →
  (let loaded := loadFavorite (Z.of_nat (length (Config.Routes c))) later in
   Config.LastOrigin (App.config (UI.app loaded.1)) = Config.LastOrigin c
   ∧ Config.LastDest (App.config (UI.app loaded.1)) = Config.LastDest c
   ∧ loaded.2 = [DoSave (App.config (UI.app loaded.1)); DoRefresh])
  ∧ (idx < 0 ∨ Z.of_nat (length (Config.Routes (App.config (UI.app later)))) ≤ idx →
     loadFavorite idx later = (later, [])).
Proof.
  intros c Hnew Hroutes. split.
  - revert Hroutes. unfold addFavorite, loadFavorite. fold c. rewrite Hnew. simpl.
    intros ->. rewrite length_app. simpl.
    rewrite bool_decide_true by lia. rewrite bool_decide_true by lia. simpl.
    rewrite Nat2Z.id, lookup_app_r, Nat.sub_diag by done. done.
  - intros Hout. unfold loadFavorite.
    destruct Hout.
    + by rewrite bool_decide_false by lia.
    + rewrite (bool_decide_false (idx < _)) by lia. by rewrite andb_false_r.
Qed.

(** X18. A handler that writes the configuration file writes the
    configuration it leaves in memory.  Of the handlers that change the
    configuration only [selectStation] with the origin as target writes
    nothing: the new origin is in memory alone until a destination is
    chosen. *)
Theorem handlers_save_what_they_leave (ui : UI.t) (idx : Z) (station : Station.t)
    (c : Config.t) :
  (DoSave c ∈ (keyReverse ui).2 → c = App.config (UI.app (keyReverse ui).1))
  ∧ (DoSave c ∈ (addFavorite ui).2 → c = App.config (UI.app (addFavorite ui).1))
  ∧ (DoSave c ∈ (loadFavorite idx ui).2 → c = App.config (UI.app (loadFavorite idx ui).1))
  ∧ (DoSave c ∈ (deleteFavorite idx ui).2 →
     c = App.config (UI.app (deleteFavorite idx ui).1))
  ∧ (DoSave c ∈ (selectStation station ui).2 →
     c = App.config (UI.app (selectStation station ui).1))
  ∧ ((addFavorite ui).2 = [] → App.config (UI.app (addFavorite ui).1) = App.config (UI.app ui))
  ∧ ((loadFavorite idx ui).2 = [] →
     App.config (UI.app (loadFavorite idx ui).1) = App.config (UI.app ui))
  ∧ ((deleteFavorite idx ui).2 = [] →
     App.config (UI.app (deleteFavorite idx ui).1) = App.config (UI.app ui))
  ∧ ((selectStation station ui).2 = [] →
     UI.searchTarget ui = "origin"
     ∧ Config.LastOrigin (App.config (UI.app (selectStation station ui).1)) = station).
Proof.
  unfold keyReverse, addFavorite, loadFavorite, deleteFavorite, selectStation.
  split_and!; repeat case_match; simpl; try done;
    try (intros [[= <-]|[?|?%elem_of_nil]%elem_of_cons]%elem_of_cons; done);
    try (intros [[= <-]|?%elem_of_nil]%elem_of_cons; done);
    try (by intros ?%elem_of_nil).
  intros _. split; [|done]. by eapply bool_decide_eq_true_1.
Qed.

(** Key [R] twice: the route is as it was. *)
Lemma keyReverse_twice (ui : UI.t) : (keyReverse (keyReverse ui).1).1 = ui.
Proof. by destruct ui as [[[? ? ?] ? ? ? ? ? ? ? ? ? ?] ? ? ? ? ? ?]. Qed.

End UIMore.

(* ===================================================================== *)
(** ** Further properties: the display helpers *)
(* ===================================================================== *)

Section SparklineFacts.
Variable scale7 : Z → Z → Z.

(** What is used of the floating-point scaling: a part of a positive whole
    scales to no negative index. *)
Hypothesis scale7_nonneg : ∀ x y, 0 ≤ x ≤ y → 0 < y → 0 ≤ scale7 x y.

Lemma blocks_length (g : string) : g ∈ blocks → String.length g = 3%nat.
Proof.
  unfold blocks. intros Hg.
  repeat (apply elem_of_cons in Hg as [->|Hg]; [reflexivity|]).
  by apply elem_of_nil in Hg.
Qed.

Lemma minMax_fold (values : list Z) (a b mn mx : Z) :
  a ≤ b →
  foldl (λ '(minVal, maxVal) v,
           (if bool_decide (v < minVal) then v else minVal,
            if bool_decide (maxVal < v) then v else maxVal))
        (a, b) values = (mn, mx) →
  mn ≤ a ∧ b ≤ mx
  ∧ Forall (λ v, mn ≤ v ≤ mx) values
  ∧ (mn = a ∨ mn ∈ values) ∧ (mx = b ∨ mx ∈ values).
Proof.
  revert a b. induction values as [|v values IH]; intros a b Hab; simpl.
  - intros [= <- <-]. split_and!; try lia; auto.
  - intros Hrun. apply IH in Hrun as (Hmn & Hmx & Hall & Hin1 & Hin2);
      [|repeat case_bool_decide; lia].
    assert (mn = a ∨ mn = v ∨ mn ∈ values) as Hin1'.
    { destruct Hin1 as [->|?]; [|by auto]. destruct (bool_decide (v < a)); auto. }
    assert (mx = b ∨ mx = v ∨ mx ∈ values) as Hin2'.
    { destruct Hin2 as [->|?]; [|by auto]. destruct (bool_decide (b < v)); auto. }
    rewrite !elem_of_cons.
    split_and!; [| |constructor; [|done]|done|done]; repeat case_bool_decide; lia.
Qed.

(** The least and the greatest value are values of the list and bound it. *)
Lemma minMax_spec (first : Z) (rest : list Z) (mn mx : Z) :
  minMax first (first :: rest) = (mn, mx) →
  Forall (λ v, mn ≤ v ≤ mx) (first :: rest)
  ∧ mn ∈ first :: rest ∧ mx ∈ first :: rest.
Proof.
  intros Hrun. apply minMax_fold in Hrun as (_ & _ & Hall & Hin1 & Hin2); [|lia].
  split_and!; [done| |].
  - destruct Hin1 as [->|?]; [left|done].
  - destruct Hin2 as [->|?]; [left|done].
Qed.

Lemma sparkBlock_ok (mn mx v : Z) :
  0 ≤ mn → mn ≤ v ≤ mx → mx ≤ maxDuration →
  ∃ g, sparkBlock scale7 mn mx v = Some g ∧ g ∈ blocks.
Proof.
  intros Hmn Hv Hmx. unfold sparkBlock.
  rewrite !wrap64_small by int64_lia.
  set (idx0 := if bool_decide (mn < mx) then scale7 (v - mn) (mx - mn) else 0).
  assert (0 ≤ idx0) as H0.
  { unfold idx0. case_bool_decide; [|lia]. apply scale7_nonneg; lia. }
  set (idx := if bool_decide (7 < idx0) then 7 else idx0).
  assert (0 ≤ idx ≤ 7) as Hidx by (unfold idx; case_bool_decide; lia).
  rewrite bool_decide_false by lia.
  destruct (lookup_lt_is_Some_2 blocks (Z.to_nat idx)) as [g Hg]; [simpl; lia|].
  exists g. split; [done|]. by eapply list_elem_of_lookup_2.
Qed.

Lemma string_app_empty_r (s : string) : s +:+ "" = s.
Proof. induction s as [|c s IH]; [done|]. by rewrite string_app_cons, IH. Qed.

Lemma sparkLoop_spec (values : list Z) (step mn mx : Z) :
  0 < step →
  (∀ v, v ∈ values → ∃ g, sparkBlock scale7 mn mx v = Some g ∧ g ∈ blocks) →
  ∀ (remaining : nat) (i : Z) (result : string),
    0 ≤ i →
    ∃ gs,
      sparkLoop scale7 values step mn mx remaining i result
        = Some (result +:+ foldr String.append "" gs)
      ∧ Forall (λ g, g ∈ blocks) gs
      ∧ (length gs ≤ remaining)%nat
      ∧ (length gs = remaining ∨ Z.of_nat (length values) ≤ (i + Z.of_nat (length gs)) * step)
      ∧ (length gs = 0%nat ∨ (i + Z.of_nat (length gs) - 1) * step < Z.of_nat (length values)).
Proof.
  intros Hstep Hblock. induction remaining as [|remaining IH]; intros i result Hi.
  - exists []. simpl. rewrite string_app_empty_r. split_and!; auto; lia.
  - cbn [sparkLoop]. case_bool_decide as Hin.
    + destruct (lookup_lt_is_Some_2 values (Z.to_nat (i * step))) as [v Hv]; [nia|].
      rewrite Hv.
      destruct (Hblock v (list_elem_of_lookup_2 _ _ _ Hv)) as (g & -> & Hg).
      destruct (IH (i + 1) (result +:+ g)) as (gs & -> & Hgs & Hlen & Hend & Hlast); [lia|].
      exists (g :: gs). cbn [foldr length]. rewrite string_app_assoc.
      split_and!; [done|by constructor|lia| |].
      * destruct Hend as [->|Hend]; [by left|right]. nia.
      * right. destruct Hlast as [->|Hlast]; nia.
    + exists []. simpl. rewrite string_app_empty_r. split_and!; auto; [lia|]. right. lia.
Qed.

Lemma padLoop_spec (width : Z) (rounds : nat) (result : string) :
  ∃ p : nat,
    padLoop width rounds result = result +:+ repeated "▁" p
    ∧ (p ≤ rounds)%nat
    ∧ (p = 0%nat ∨ Z.of_nat (String.length result) + 3 * (Z.of_nat p - 1) < width)
    ∧ (p = rounds ∨ width ≤ Z.of_nat (String.length result) + 3 * Z.of_nat p).
Proof.
  revert result. induction rounds as [|rounds IH]; intros result.
  - exists 0%nat. simpl. rewrite string_app_empty_r. split_and!; auto.
  - cbn [padLoop]. case_bool_decide as Hshort.
    + destruct (IH (result +:+ "▁")) as (p & -> & Hp & Hfirst & Hlast).
      rewrite string_length_app in Hfirst, Hlast.
      change (String.length "▁") with 3%nat in Hfirst, Hlast.
      exists (S p). cbn [repeated]. rewrite string_app_assoc.
      split_and!; [done|lia| |].
      * right. destruct Hfirst as [->|Hfirst]; lia.
      * destruct Hlast as [->|Hlast]; [by left|right; lia].
    + exists 0%nat. simpl. rewrite string_app_empty_r. split_and!; auto; [lia|]. right. lia.
Qed.

Lemma cat_app (gs hs : list string) :
  foldr String.append "" (gs ++ hs) = foldr String.append "" gs +:+ foldr String.append "" hs.
Proof.
  induction gs as [|g gs IH]; [done|]. simpl. by rewrite IH, string_app_assoc.
Qed.

Lemma cat_length (gs : list string) :
  Forall (λ g, g ∈ blocks) gs →
  String.length (foldr String.append "" gs) = (3 * length gs)%nat.
Proof.
  induction 1 as [|g gs Hg _ IH]; [done|]. simpl.
  rewrite string_length_app, IH, (blocks_length g Hg). lia.
Qed.

Lemma repeated_cat (g : string) (p : nat) :
  repeated g p = foldr String.append "" (replicate p g).
Proof. induction p as [|p IH]; [done|]. simpl. by rewrite IH. Qed.

Lemma repeated_glyphs (p : nat) : glyphString p (repeated "▁" p).
Proof.
  exists (replicate p "▁"). rewrite length_replicate. split_and!; [done| |].
  - apply Forall_replicate. left.
  - apply repeated_cat.
Qed.

(** The shape of a sparkline of some values in a positive width: the glyphs
    of the sampled values, then the padding. *)
Lemma sparkline_shape (values : list Z) (width : Z) :
  values ≠ [] → 0 < width →
  Forall (λ v, 0 ≤ v ≤ maxDuration) values →
  let len := Z.of_nat (length values) in
  let step := 1 `max` (len `quot` width) in
  ∃ (shown pad : nat) (s : string),
    sparkline scale7 values width = Some s
    ∧ glyphString (shown + pad) s
    ∧ Z.of_nat shown ≤ width
    ∧ (Z.of_nat shown = width ∨ len ≤ Z.of_nat shown * step)
    ∧ (Z.of_nat shown - 1) * step < len
    ∧ (pad = 0%nat ∨ 3 * (Z.of_nat shown + Z.of_nat pad - 1) < width)
    ∧ width ≤ 3 * (Z.of_nat shown + Z.of_nat pad).
Proof.
  intros Hne Hwidth Hrange len step.
  destruct values as [|first rest]; [done|].
  unfold sparkline. fold len. destruct (minMax first (first :: rest)) as [mn mx] eqn:Hmm.
  apply minMax_spec in Hmm as (Hall & Hmn & Hmx).
  rewrite list.Forall_forall in Hrange, Hall.
  rewrite bool_decide_false by lia.
  assert ((if bool_decide (len `quot` width < 1) then 1 else len `quot` width) = step) as ->
    by (unfold step; case_bool_decide; lia).
  destruct (sparkLoop_spec (first :: rest) step mn mx) with
    (remaining := Z.to_nat width) (i := 0) (result := "")
    as (gs & -> & Hgs & Hlen & Hend & Hlast); [lia| |lia|].
  { intros v Hv. apply sparkBlock_ok.
    - apply (Hrange mn Hmn).
    - apply (Hall v Hv).
    - apply (Hrange mx Hmx). }
  change ("" +:+ foldr String.append "" gs) with (foldr String.append "" gs).
  destruct (padLoop_spec width (Z.to_nat width) (foldr String.append "" gs))
    as (p & -> & Hp & Hfirst & Hfull).
  rewrite (cat_length gs Hgs) in Hfirst, Hfull.
  exists (length gs), p, (foldr String.append "" gs +:+ repeated "▁" p).
  fold len in Hend, Hlast.
  split_and!; [done| |lia| | | |].
  - exists (gs ++ replicate p "▁")%list. rewrite length_app, length_replicate.
    split_and!; [done| |].
    + apply Forall_app. split; [done|]. apply Forall_replicate. left.
    + by rewrite cat_app, repeated_cat.
  - destruct Hend as [Hend|Hend]; [left; lia|right; lia].
  - destruct Hlast as [Hlast|Hlast]; [|lia].
    assert (0 < len) by (unfold len; simpl; lia). rewrite Hlast. lia.
  - destruct Hfirst as [->|Hfirst]; [by left|right; lia].
  - destruct Hfull as [->|Hfull]; lia.
Qed.

Lemma strings_Repeat_glyph (width : Z) :
  strings_Repeat "▁" width
  = if bool_decide (width < 0 ∨ maxInt < 3 * width) then None
    else Some (repeated "▁" (Z.to_nat width)).
Proof.
  unfold strings_Repeat. change (Z.of_nat (String.length "▁")) with 3.
  repeat case_bool_decide; try done; lia.
Qed.

(** X19. For values between 0 and the largest [int], and a positive width
    whose byte count [3 * width] fits an [int], [sparkline] returns a string
    of glyphs of [blocks] and does not panic.  For no value it has [width]
    glyphs.  Otherwise it has one glyph for every [step]-th value, [width] at
    most, and is padded only up to [width] bytes, that is to a third of
    [width] glyphs, rounded up. *)
Theorem sparkline_glyph_count (values : list Z) (width : Z) :
  0 < width → 3 * width ≤ maxInt →
  Forall (λ v, 0 ≤ v ≤ maxInt) values →
  ∃ s, sparkline scale7 values width = Some s
       ∧ glyphString (sparkGlyphs (length values) width) s.
Proof.
  intros Hwidth Hfits Hrange. destruct values as [|first rest] eqn:Hvalues.
  { simpl. rewrite strings_Repeat_glyph, bool_decide_false by lia.
    eexists. split; [done|]. apply repeated_glyphs. }
  rewrite <- Hvalues in *.
  destruct (sparkline_shape values width) as
    (shown & pad & s & Hs & Hglyphs & Hle & Hend & Hlast & Hfirst & Hfull);
    [by rewrite Hvalues|done|done|].
  exists s. split; [done|].
  assert (sparkGlyphs (length values) width = (shown + pad)%nat) as ->; [|done].
  unfold sparkGlyphs. destruct (length values) as [|n] eqn:Hn; [by rewrite Hvalues in Hn|].
  set (len := Z.of_nat (S n)) in *.
  set (step := 1 `max` (len `quot` width)) in *.
  assert (0 < len) by (unfold len; lia).
  assert (1 ≤ step) as Hstep by (unfold step; lia).
  pose proof (Z.mul_div_le (len + step - 1) step ltac:(lia)) as Hlo.
  pose proof (Z.mul_succ_div_gt (len + step - 1) step ltac:(lia)) as Hhi.
  set (c := (len + step - 1) `div` step) in *.
  assert (Z.of_nat shown = width `min` c) as Hshown by nia.
  rewrite <- Hshown. clear -Hfirst Hfull. Z.div_mod_to_equations. lia.
Qed.

(** X20. For values between 0 and the largest [int] and a width that is an
    [int], [sparkline] panics in these cases only: no value and a negative
    width (a negative [Repeat] count); no value and a width whose byte count
    [3 * width] overflows an [int] (the output length of [Repeat]); some
    value and width 0 (a division by zero).  With some value and a negative
    width it returns the empty string. *)
Theorem sparkline_panics_iff (values : list Z) (width : Z) :
  Forall (λ v, 0 ≤ v ≤ maxInt) values →
  minInt ≤ width ≤ maxInt →
  (sparkline scale7 values width = None
   ↔ (values = [] ∧ (width < 0 ∨ maxInt < 3 * width)) ∨ (values ≠ [] ∧ width = 0))
  ∧ (values ≠ [] → width < 0 → sparkline scale7 values width = Some "").
Proof.
  intros Hrange _.
  assert (values ≠ [] → width < 0 → sparkline scale7 values width = Some "") as Hneg.
  { intros Hne Hwidth. destruct values as [|first rest]; [done|].
    unfold sparkline. destruct (minMax _ _) as [mn mx].
    rewrite bool_decide_false by lia.
    by replace (Z.to_nat width) with 0%nat by lia. }
  split; [|done]. split.
  - intros Hnone. destruct (decide (values = [])) as [->|Hne].
    + left. split; [done|]. simpl in Hnone. rewrite strings_Repeat_glyph in Hnone.
      case_bool_decide; [done|congruence].
    + right. split; [done|].
      destruct (Z.lt_trichotomy width 0) as [Hwidth|[Hwidth|Hwidth]]; [|done|].
      * by rewrite Hneg in Hnone.
      * destruct (sparkline_shape values width Hne Hwidth Hrange)
          as (shown & pad & s & Hs & _).
        congruence.
  - intros [[-> Hwidth]|[Hne ->]].
    + simpl. by rewrite strings_Repeat_glyph, bool_decide_true.
    + destruct values as [|first rest]; [done|].
      unfold sparkline. by destruct (minMax _ _).
Qed.

(** X21. In the detail view, where [sparkline] is called with width 8 on the
    samples of a line that has some: for a history as the refresh keeps it
    (at least one and at most 20 samples for a line, none negative), the call
    does not panic, and the result has as many glyphs as there are samples,
    but at least 3 and at most 8. *)
Theorem history_sparkline (hist : gmap string DelayHistory.t) (line : string)
    (h : DelayHistory.t) :
  historyWellFormed hist → historyBounded hist →
  hist !! line = Some h →
  Forall (λ d, d ≤ maxDuration) (DelayHistory.Delays h) →
  ∃ s, sparkline scale7 (DelayHistory.Delays h) 8 = Some s
       ∧ glyphString (3 `max` (length (DelayHistory.Delays h) `min` 8)) s.
Proof.
  intros Hw Hb Hline Hmax.
  destruct (Hw _ _ Hline) as (_ & Hne & Hpos). specialize (Hb _ _ Hline). simpl in Hb.
  assert (Forall (λ v, 0 ≤ v ≤ maxDuration) (DelayHistory.Delays h)) as Hrange.
  { rewrite list.Forall_forall in Hpos, Hmax. apply list.Forall_forall. intros v Hv.
    split; [by apply Hpos|by apply Hmax]. }
  destruct (sparkline_shape (DelayHistory.Delays h) 8)
    as (shown & pad & s & Hs & Hglyphs & Hle & Hend & Hlast & Hfirst & Hfull);
    [done|done|done|].
  exists s. split; [done|].
  assert (3 `max` (length (DelayHistory.Delays h) `min` 8) = shown + pad)%nat as ->; [|done].
  set (len := length (DelayHistory.Delays h)) in *.
  assert (0 < len)%nat by (unfold len; destruct (DelayHistory.Delays h); [done|simpl; lia]).
  rewrite Z.quot_div_nonneg in Hend, Hlast by lia.
  assert (Z.of_nat len < 16 ∧ 1 `max` (Z.of_nat len `div` 8) = 1
          ∨ 16 ≤ Z.of_nat len ∧ 1 `max` (Z.of_nat len `div` 8) = 2) as [[Hlen Hstep]|[Hlen Hstep]]
    by (Z.div_mod_to_equations; lia);
    rewrite Hstep in Hend, Hlast; lia.
Qed.

End SparklineFacts.

Section OccupancyMore.
Context {lib : GoLib}.

Lemma parseOccupancy_range (remarks : list APIRemark.t) :
  parseOccupancy remarks ∈ [""; "low"; "medium"; "high"].
Proof.
  induction remarks as [|r remarks IH]; simpl; [left|].
  repeat (destruct (_ || _) || destruct (strings_Contains _ _)); try done;
    repeat (first [left; reflexivity | right]).
Qed.

Lemma maxOccStep_level (maxOcc : string) (leg : Leg.t) :
  maxOcc ∈ [""; "low"; "medium"; "high"] →
  Leg.Occupancy leg ∈ [""; "low"; "medium"; "high"] →
  maxOccStep maxOcc leg ∈ [""; "low"; "medium"; "high"]
  ∧ occPriority (maxOccStep maxOcc leg)
    = occPriority maxOcc `max` occPriority (Leg.Occupancy leg).
Proof.
  unfold maxOccStep. generalize (Leg.Occupancy leg). intros occ Hacc Hocc.
  repeat (apply elem_of_cons in Hacc as [->|Hacc]);
    [| | | |by apply elem_of_nil in Hacc];
    (repeat (apply elem_of_cons in Hocc as [->|Hocc]);
     [| | | |by apply elem_of_nil in Hocc]);
    vm_compute; split; try reflexivity;
    repeat (first [left; reflexivity | right]).
Qed.

Lemma maxOccupancy_level (legs : list Leg.t) (maxOcc : string) :
  maxOcc ∈ [""; "low"; "medium"; "high"] →
  Forall (λ leg, Leg.Occupancy leg ∈ [""; "low"; "medium"; "high"]) legs →
  foldl maxOccStep maxOcc legs ∈ [""; "low"; "medium"; "high"]
  ∧ ∀ k, k ≤ occPriority (foldl maxOccStep maxOcc legs)
         ↔ k ≤ occPriority maxOcc ∨ Exists (λ leg, k ≤ occPriority (Leg.Occupancy leg)) legs.
Proof.
  intros Hacc Hlegs. revert maxOcc Hacc.
  induction Hlegs as [|leg legs Hleg _ IH]; intros maxOcc Hacc; simpl.
  - split; [done|]. intros k. rewrite Exists_nil. tauto.
  - destruct (maxOccStep_level maxOcc leg Hacc Hleg) as [Hin Hmax].
    destruct (IH _ Hin) as [Hin' Hlevel]. split; [done|].
    intros k. rewrite Hlevel, Hmax, Exists_cons, Z.max_le_iff. tauto.
Qed.

Lemma four_levels (s : string) :
  s ∈ [""; "low"; "medium"; "high"] → s = "" ∨ s = "low" ∨ s = "medium" ∨ s = "high".
Proof. rewrite !elem_of_cons, elem_of_nil. tauto. Qed.

(** What the priority of a level says about the level. *)
Lemma level_of_priority (occ : string) :
  occ ∈ [""; "low"; "medium"; "high"] →
  (3 ≤ occPriority occ ↔ occ = "high")
  ∧ (2 ≤ occPriority occ ↔ occ = "medium" ∨ occ = "high")
  ∧ (1 ≤ occPriority occ ↔ occ = "low" ∨ occ = "medium" ∨ occ = "high")
  ∧ (occ = "" ↔ ¬ 1 ≤ occPriority occ).
Proof.
  intros Hocc. destruct (four_levels _ Hocc) as [Hs|[Hs|[Hs|Hs]]]; rewrite Hs;
    clear Hocc Hs; vm_compute (occPriority _);
    (split_and!; split; intros Hcase;
     first [lia | done | by decompose [or] Hcase | by auto]).
Qed.

(** What the priorities of some legs say about their levels. *)
Lemma levels_of_priorities (legs : list Leg.t) :
  Forall (λ leg, Leg.Occupancy leg ∈ [""; "low"; "medium"; "high"]) legs →
  let some level := Exists (λ leg, Leg.Occupancy leg = level) legs in
  let reach k := Exists (λ leg, k ≤ occPriority (Leg.Occupancy leg)) legs in
  (reach 3 ↔ some "high")
  ∧ (reach 2 ↔ some "medium" ∨ some "high")
  ∧ (reach 1 ↔ some "low" ∨ some "medium" ∨ some "high")
  ∧ (Forall (λ leg, Leg.Occupancy leg = "") legs ↔ ¬ reach 1).
Proof.
  intros Hrange some reach. unfold some, reach.
  split_and!; induction Hrange as [|leg legs Hleg _ IH];
    rewrite ?Exists_nil, ?Forall_nil, ?Exists_cons, ?Forall_cons; try tauto;
    destruct (level_of_priority _ Hleg) as (L3 & L2 & L1 & L0);
    rewrite IH.
  - rewrite L3. tauto.
  - rewrite L2. tauto.
  - rewrite L1. tauto.
  - rewrite L0. tauto.
Qed.

(** Replaces a settled comparison by what it is equivalent to. *)
Ltac settle H :=
  match type of H with
  | (?a ≤ ?b)%Z ↔ ?R =>
      first [assert R by (apply H; lia) | assert (¬ R) by (rewrite <- H; lia)]; clear H
  end.

(** X22. The occupancy a journey of the builder is listed with is the
    highest of its legs' levels: "high" when some leg is "high", else
    "medium" when some leg is "medium", else "low" when some leg is "low",
    and none when no leg has a level. *)
Theorem journey_occupancy_indicator (filters : gmap string bool)
    (resp : APIJourneysResponse.t) (j : Journey.t) :
  j ∈ buildJourneys filters resp →
  let shown := maxOccupancy (Journey.Legs j) in
  let some level := Exists (λ leg, Leg.Occupancy leg = level) (Journey.Legs j) in
  (shown = "high" ↔ some "high")
  ∧ (shown = "medium" ↔ some "medium" ∧ ¬ some "high")
  ∧ (shown = "low" ↔ some "low" ∧ ¬ some "medium" ∧ ¬ some "high")
  ∧ (shown = "" ↔ Forall (λ leg, Leg.Occupancy leg = "") (Journey.Legs j)).
Proof.
  intros (aj & _ & Hb)%elem_of_buildJourneys shown some.
  assert (Forall (λ leg, Leg.Occupancy leg ∈ [""; "low"; "medium"; "high"]) (Journey.Legs j))
    as Hrange.
  { destruct (buildJourney_Some _ _ _ Hb) as (_ & _ & _ & _ & -> & _).
    rewrite (proj1 (legLoop_spec _)).
    generalize (@nil APILeg.t).
    induction (APIJourney.Legs aj) as [|al raw IH]; intros before; simpl; [constructor|].
    destruct (boarded al) as [[[line dep] arr]|]; [|apply IH].
    constructor; [apply parseOccupancy_range|apply IH]. }
  destruct (maxOccupancy_level (Journey.Legs j) "" ltac:(left) Hrange) as [Hin Hlevel].
  fold (maxOccupancy (Journey.Legs j)) in Hin, Hlevel. fold shown in Hin, Hlevel.
  destruct (levels_of_priorities _ Hrange) as (E3 & E2 & E1 & E0).
  subst some. cbv beta.
  assert (∀ k, 0 < k →
            k ≤ occPriority shown
            ↔ Exists (λ leg, k ≤ occPriority (Leg.Occupancy leg)) (Journey.Legs j)) as Hreach.
  { intros k Hk. rewrite Hlevel. change (occPriority "") with 0.
    split; [intros [?|?]; [lia|done]|by right]. }
  pose proof (Hreach 1 ltac:(lia)) as H1. pose proof (Hreach 2 ltac:(lia)) as H2.
  pose proof (Hreach 3 ltac:(lia)) as H3.
  rewrite E0. rewrite E1 in H1 |- *. rewrite E2 in H2. rewrite E3 in H3.
  clearbody shown. clear -Hin H1 H2 H3.
  destruct (four_levels _ Hin) as [Hs|[Hs|[Hs|Hs]]]; rewrite Hs in *;
    vm_compute (occPriority _) in H1, H2, H3; settle H1; settle H2; settle H3;
    (split_and!; split; intros Hcase; first [done | tauto]).
Qed.

(** X23. The products with a colour of their own, the products with an icon
    of their own and the products the filter table of [NewApp] lists are the
    same seven: a leg is drawn in the fallback colour "white", and with the
    fallback icon, exactly when its product is none of them. *)
Theorem product_tables_agree (config : Config.t) (product : string) :
  (getProductColor product = "white" ↔ App.filters (NewApp config) !! product = None)
  ∧ (getProductIcon product = "[ ]" ↔ App.filters (NewApp config) !! product = None).
Proof.
  assert (App.filters (NewApp config) !! product = None
          ↔ product ∉ ["suburban"; "subway"; "tram"; "bus"; "ferry"; "regional"; "express"])
    as ->.
  { simpl. rewrite !lookup_insert_None, lookup_empty, !not_elem_of_cons.
    pose proof (not_elem_of_nil product). intuition congruence. }
  unfold getProductColor, getProductIcon, productColors, productIcons. split.
  - destruct (list_to_map _ !! product) as [c|] eqn:Hc; simpl.
    + apply elem_of_list_to_map_2 in Hc.
      repeat (apply elem_of_cons in Hc as [[= -> ->]|Hc];
              [split; [discriminate|intros Hno; destruct Hno; set_solver]|]).
      by apply elem_of_nil in Hc.
    + apply not_elem_of_list_to_map in Hc. done.
  - destruct (list_to_map _ !! product) as [c|] eqn:Hc; simpl.
    + apply elem_of_list_to_map_2 in Hc.
      repeat (apply elem_of_cons in Hc as [[= -> ->]|Hc];
              [split; [discriminate|intros Hno; destruct Hno; set_solver]|]).
      by apply elem_of_nil in Hc.
    + apply not_elem_of_list_to_map in Hc. done.
Qed.

End OccupancyMore.

(* ===================================================================== *)
(** ** The further properties at concrete inputs *)
(* ===================================================================== *)

(** The legs of the journey of [Ex.change]: its walk contributes none. *)
Lemma journey_legs_in_raw_order_witness :
  ∃ j, j ∈ buildJourneys (lib := refLib) ∅ Ex.change ∧ length (Journey.Legs j) = 2%nat.
Proof.
  destruct change_built as [j Hj].
  assert (j ∈ buildJourneys (lib := refLib) ∅ Ex.change) as Hin by (rewrite Hj; left).
  destruct (journey_legs_in_raw_order (lib := refLib) ∅ Ex.change j Hin) as (aj & Haj & Hlegs).
  apply list_elem_of_singleton in Haj as ->.
  apply Forall2_length in Hlegs.
  exists j. split; [assumption|]. rewrite Hlegs. vm_compute. reflexivity.
Defined.

(** A mapping that enables trams, at [Ex.change]. *)
Lemma filters_all_enabled_witness :
  buildJourneys (lib := refLib) {[ "tram" := true ]} Ex.change
  = buildJourneys (lib := refLib) ∅ Ex.change.
Proof.
  apply (filters_all_enabled (lib := refLib) {[ "tram" := true ]} Ex.change).
  apply map_Forall_singleton. reflexivity.
Defined.

(** The first refresh, answered with [Ex.change]. *)
Lemma first_refresh_all_new_witness :
  ∃ a', refresh (lib := refLib) (NewApp Ex.config) (Ex.answers Ex.change) (Ex.clock 1) = Some a'
        ∧ Forall (λ j, Journey.IsNew j = true) (App.journeys a')
        ∧ App.newHighlight a' = 30.
Proof.
  destruct (first_refresh_all_new (lib := refLib) Ex.config (Ex.answers Ex.change)
              (Ex.clock 1) Ex.change)
    as (a' & Hr & _ & Hnew & Hh); [reflexivity|].
  exists a'. split; [assumption|]. split; [assumption|].
  rewrite Hh. destruct change_built as [j ->]. reflexivity.
Defined.

(** [Ex.change] fetched, then a failure, then [Ex.change] again. *)
Lemma same_batch_after_failure_witness :
  ∃ a1 a3,
    refresh (lib := refLib) (NewApp Ex.config) (Ex.answers Ex.change) (Ex.clock 1) = Some a1
    ∧ refreshes (lib := refLib) (NewApp Ex.config)
        [(Ex.answers Ex.change, Ex.clock 1); (Ex.fails, Ex.clock 2);
         (Ex.answers Ex.change, Ex.clock 3)] = Some a3
    ∧ Forall (λ j, Journey.IsNew j = false) (App.journeys a3)
    ∧ App.prevJourneyIDs a3 = App.prevJourneyIDs a1.
Proof.
  destruct (same_batch_after_failure (lib := refLib) (NewApp Ex.config)
              (Ex.answers Ex.change) Ex.fails (Ex.answers Ex.change)
              (Ex.clock 1) (Ex.clock 2) (Ex.clock 3) Ex.change)
    as (a1 & a3 & H1 & H3 & _ & Hold & _ & Hids); [reflexivity|reflexivity|reflexivity|].
  exists a1, a3. repeat (split; [assumption|]). assumption.
Defined.

(** The first refresh, answered with [Ex.change]: the tram's 3 minutes. *)
Lemma refresh_delay_history_witness :
  ∃ a' h,
    refresh (lib := refLib) (NewApp Ex.config) (Ex.answers Ex.change) (Ex.clock 1) = Some a'
    ∧ App.delayHistory a' !! "M10" = Some h
    ∧ DelayHistory.Line h = "M10"
    ∧ DelayHistory.Delays h = [3]
    ∧ App.delayHistory a' !! "S3" = None.
Proof.
  destruct (refresh_delay_history (lib := refLib) (NewApp Ex.config) (Ex.answers Ex.change)
              (Ex.clock 1) Ex.change)
    as (a' & Hr & Hh); [reflexivity|].
  pose proof (Hh "M10") as Htram. pose proof (Hh "S3") as Htrain.
  vm_compute in Htram. vm_compute in Htrain.
  destruct Htram as (h & Hlook & Hline & Hdelays).
  exists a', h. split; [assumption|]. split; [exact Hlook|].
  split; [exact Hline|]. split; [exact Hdelays|]. exact Htrain.
Defined.

(** Nineteen ticks after start-up: the next one queues the refresh. *)
Lemma startup_refresh_at_tick_20_witness :
  ∃ ui, run (lib := refLib) (NewUI Ex.config) (replicate 19 EvTick) = Some ui
        ∧ UI.showSplash ui = true
        ∧ (tick ui).2 = true.
Proof.
  destruct (startup_refresh_at_tick_20 (lib := refLib) Ex.config (replicate 19 EvTick))
    as (ui & Hrun & Hs & Ht); [vm_compute; reflexivity|].
  exists ui. split; [assumption|]. rewrite Hs, Ht. split; vm_compute; reflexivity.
Defined.

(** Fifty ticks after start-up. *)
Lemma new_flags_cleared_after_50_ticks_witness :
  ∃ ui, run (lib := refLib) (NewUI Ex.config) (replicate 50 EvTick) = Some ui
        ∧ Forall (λ j, newIndicator (UI.app (tick ui).1) j = false)
                 (App.journeys (UI.app (tick ui).1)).
Proof.
  destruct (new_flags_cleared_after_50_ticks (lib := refLib) Ex.config (replicate 50 EvTick))
    as (ui & Hrun & _ & Hge); [vm_compute; reflexivity|].
  exists ui. split; [assumption|]. apply Hge. vm_compute. lia.
Defined.

(** Both countdowns armed with 30: over after 30 ticks, not after 29. *)
Lemma countdowns_decay_witness :
  App.newHighlight (UI.app (ticks 30 Ex.armed)) = 0
  ∧ UI.statusMsgFrame (ticks 30 Ex.armed) = 0
  ∧ App.newHighlight (UI.app (ticks 29 Ex.armed)) = 1.
Proof.
  destruct (countdowns_decay Ex.armed 30) as [Hh Hm]; [reflexivity|simpl; lia|simpl; lia|].
  destruct (countdowns_decay Ex.armed 29) as [Hh' _]; [reflexivity|simpl; lia|simpl; lia|].
  rewrite Hh, Hm, Hh'. split_and!; reflexivity.
Defined.

(** Key [a] twice from a configuration with no favourite. *)
Lemma favourites_stay_distinct_witness :
  ∃ ui, run (lib := refLib) (NewUI Ex.config) [EvAddFavorite; EvAddFavorite] = Some ui
        ∧ routesDistinct (App.config (UI.app ui)).
Proof.
  apply (favourites_stay_distinct (lib := refLib) Ex.config [EvAddFavorite; EvAddFavorite]).
  apply NoDup_nil_2.
Defined.

(** The route of [Ex.config] added, reversed with key [R], then loaded. *)
Lemma load_added_favorite_witness :
  Config.LastOrigin
    (App.config (UI.app (loadFavorite 0 (keyReverse (addFavorite (NewUI Ex.config)).1).1).1))
  = Config.LastOrigin Ex.config
  ∧ loadFavorite 5 (keyReverse (addFavorite (NewUI Ex.config)).1).1
    = ((keyReverse (addFavorite (NewUI Ex.config)).1).1, []).
Proof.
  destruct (load_added_favorite (NewUI Ex.config)
              (keyReverse (addFavorite (NewUI Ex.config)).1).1 5)
    as [(Horigin & _ & _) Hout]; [reflexivity|reflexivity|].
  split; [exact Horigin|]. apply Hout. right. vm_compute. discriminate.
Defined.

Lemma scale7_nonneg_example (x y : Z) : 0 ≤ x ≤ y → 0 < y → 0 ≤ Ex.scale7 x y.
Proof. intros Hx Hy. unfold Ex.scale7. apply Z.div_pos; lia. Qed.

(** Two samples in width 10: two glyphs, padded to four. *)
Lemma sparkline_glyph_count_witness :
  ∃ s, sparkline Ex.scale7 [1; 2] 10 = Some s ∧ glyphString 4 s.
Proof.
  apply (sparkline_glyph_count Ex.scale7 scale7_nonneg_example [1; 2] 10);
    [lia|unfold maxInt; int64_lia|].
  repeat (apply Forall_cons; split; [unfold maxInt; int64_lia|]). apply Forall_nil_2.
Defined.

(** Two samples in width 0; no sample in a width of 2^62. *)
Lemma sparkline_panics_iff_witness :
  sparkline Ex.scale7 [1; 2] 0 = None ∧ sparkline Ex.scale7 [] (2 ^ 62) = None.
Proof.
  split.
  - apply (sparkline_panics_iff Ex.scale7 scale7_nonneg_example [1; 2] 0).
    + repeat (apply Forall_cons; split; [unfold maxInt; int64_lia|]). apply Forall_nil_2.
    + unfold minInt, maxInt. int64_lia.
    + right. split; [discriminate|reflexivity].
  - apply (sparkline_panics_iff Ex.scale7 scale7_nonneg_example [] (2 ^ 62)).
    + apply Forall_nil_2.
    + unfold minInt, maxInt. int64_lia.
    + left. split; [reflexivity|]. right. unfold maxInt. int64_lia.
Defined.

(** The twenty samples of [Ex.fullHistory]. *)
Lemma history_sparkline_witness :
  ∃ s, sparkline Ex.scale7 (seqZ 1 20) 8 = Some s ∧ glyphString 8 s.
Proof.
  apply (history_sparkline Ex.scale7 scale7_nonneg_example Ex.fullHistory "M10"
           (DelayHistory.mk "M10" (seqZ 1 20) (Ex.clock 0))).
  - apply map_Forall_singleton. split; [reflexivity|]. split; [discriminate|].
    apply list.Forall_forall. intros d Hd%elem_of_seqZ. lia.
  - apply map_Forall_singleton. vm_compute. lia.
  - reflexivity.
  - apply list.Forall_forall. intros d Hd%elem_of_seqZ. int64_lia.
Defined.

(** The journey of [Ex.change], whose legs carry no remark. *)
Lemma journey_occupancy_indicator_witness :
  ∃ j, j ∈ buildJourneys (lib := refLib) ∅ Ex.change
       ∧ (maxOccupancy (Journey.Legs j) = ""
          ↔ Forall (λ leg, Leg.Occupancy leg = "") (Journey.Legs j)).
Proof.
  destruct change_built as [j Hj].
  assert (j ∈ buildJourneys (lib := refLib) ∅ Ex.change) as Hin by (rewrite Hj; left).
  destruct (journey_occupancy_indicator (lib := refLib) ∅ Ex.change j Hin)
    as (_ & _ & _ & Hnone).
  exists j. split; assumption.
Defined.
